(** * PID tuning application: telemetry store, extrema tracker and
      step-response analyzer

    Shallow embedding of [examples/pid_tuning_app/pid_tuning_app.py]
    (classes [StepResponseAnalyzer] and [PIDTuningApp]) and the properties
    of its data engine.

    Number model.  Python floats are modelled by exact rationals ([Q]):
    every finite float is a rational, and the properties below are about
    the control flow, the indexing and the order of the values, not about
    rounding error.  The one place where a non-finite value can be born
    from finite inputs, the division by [step_amplitude] (a numpy float64,
    which divides by zero without raising), is modelled with [float64].
    The min/max display variables hold formatted text; a numeral is
    modelled by the exact decimal it denotes and "N/A" by [None].
    Python exceptions are explicit: a fallible operation returns an
    [outcome], and [analyze], which assigns to the analyzer before it can
    raise, returns the analyzer together with the outcome. *)

From Stdlib Require Import ZArith QArith Qround Qabs Lqa Lia.
From stdpp Require Import base option list strings gmap.

Local Open Scope Z_scope.

(** ** Python and numpy built-ins used by the program *)

Module Py.

Inductive exn := IndexError | ValueError | TypeError.

Inductive outcome (A : Type) :=
| Ok (a : A)
| Raise (e : exn).
Arguments Ok {A} a.
Arguments Raise {A} e.

Definition bind {A B} (m : outcome A) (k : A → outcome B) : outcome B :=
  match m with
  | Ok a => k a
  | Raise e => Raise e
  end.

Definition len {A} (l : list A) : Z := Z.of_nat (length l).

(** [l[i]]: a negative index counts from the end, an index outside
    [-len .. len-1] raises IndexError. *)
Definition getitem {A} (l : list A) (i : Z) : outcome A :=
  let j := if i <? 0 then i + len l else i in
  if j <? 0 then Raise IndexError
  else match l !! Z.to_nat j with
       | Some x => Ok x
       | None => Raise IndexError
       end.

(** The position, counted from the front, that [l[i]] reads. *)
Definition position {A} (l : list A) (i : Z) : nat :=
  Z.to_nat (if i <? 0 then i + len l else i).

(** Slice bounds are clamped, never raise. *)
Definition clamp (n i : Z) : Z :=
  if i <? 0 then Z.max 0 (i + n) else Z.min i n.

(** [l[lo:hi]]; [None] is an omitted bound. *)
Definition slice {A} (l : list A) (lo hi : option Z) : list A :=
  let a := from_option (clamp (len l)) 0 lo in
  let b := from_option (clamp (len l)) (len l) hi in
  take (Z.to_nat (b - a)) (drop (Z.to_nat a) l).

(** [range(lo, hi)] and [range(hi, lo, -1)]. *)
Definition range (lo hi : Z) : list Z :=
  (λ k, lo + Z.of_nat k) <$> seq 0 (Z.to_nat (hi - lo)).

Definition range_down (hi lo : Z) : list Z :=
  (λ k, hi - Z.of_nat k) <$> seq 0 (Z.to_nat (hi - lo)).

Definition ltb (x y : Q) : bool := negb (Qle_bool y x).
Definition leb (x y : Q) : bool := Qle_bool x y.

(** [int(x)] truncates toward zero. *)
Definition int (x : Q) : Z := Z.quot (Qnum x) (Z.pos (Qden x)).

(** Two-argument [min(a, b)] and [max(a, b)]: the first argument is
    kept unless the second is strictly smaller (larger). *)
Definition min (a b : Q) : Q := if ltb b a then b else a.
Definition max (a b : Q) : Q := if ltb a b then b else a.

(** [max(l)] of a sequence: ValueError when it is empty. *)
Definition max_seq (l : list Q) : outcome Q :=
  match l with
  | [] => Raise ValueError
  | x :: l' => Ok (fold_left max l' x)
  end.

Definition sum (l : list Q) : Q := fold_left Qplus l 0%Q.

(** [np.mean(l)].  On an empty list numpy answers nan with a warning;
    every slice the analyzer averages is non-empty on a trace built by
    [add_data] (see [mean_window_nonempty]). *)
Definition np_mean (l : list Q) : Q := (sum l / inject_Z (len l))%Q.

(** numpy float64 results: finite, plus or minus infinity, nan. *)
Inductive float64 :=
| Finite (q : Q)
| Inf (negative : bool)
| NaN.

(** [x / y] with [y] a numpy float64: division by zero gives inf or
    nan (with a RuntimeWarning), it does not raise. *)
Definition np_truediv (x y : Q) : float64 :=
  if Qeq_bool y 0 then
    if Qeq_bool x 0 then NaN else Inf (ltb x 0)
  else Finite (x / y).

(** [v * c] for a positive finite constant [c]. *)
Definition np_scale (v : float64) (c : Q) : float64 :=
  match v with
  | Finite q => Finite (q * c)
  | Inf s => Inf s
  | NaN => NaN
  end.

(** [f"{x:.{d}f}"] read back with [float]: [x] rounded to [d] decimals,
    ties to even.  The numeral is kept as the exact decimal
    [n / 10^d]. *)
Definition round_half_even (x : Q) : Z :=
  let f := Qfloor x in
  let r := (x - inject_Z f)%Q in
  if ltb r (1#2) then f
  else if ltb (1#2) r then f + 1
  else if Z.even f then f else f + 1.

Definition pow10 (d : nat) : positive := Nat.iter d (Pos.mul 10) 1%positive.

Definition format_f (d : nat) (x : Q) : Q :=
  Qmake (round_half_even (x * inject_Z (Z.pos (pow10 d)))) (pow10 d).

End Py.

Import Py.

#[global] Instance outcome_bind : MBind outcome := λ A B k m, Py.bind m k.

(** ** class StepResponseAnalyzer *)

Module StepResponseAnalyzer.

Record t := mk {
  time : list Q;
  pv : list Q;
  sp : list Q;
  output : list Q;
  step_start_time : option Q;   (* None until a step is found *)
  initial_value : Q;
  final_value : Q;
  step_amplitude : Q
}.

Definition reset (self : t) : t :=
  mk [] [] [] [] None 0 0 0.

(** [__init__] only calls [reset]. *)
Definition init : t := mk [] [] [] [] None 0 0 0.

Definition add_data (self : t) (tm p s o : Q) : t :=
  mk (time self ++ [tm]) (pv self ++ [p]) (sp self ++ [s]) (output self ++ [o])
     (step_start_time self) (initial_value self) (final_value self)
     (step_amplitude self).

Definition set_step_start_time (self : t) (v : Q) : t :=
  mk (time self) (pv self) (sp self) (output self)
     (Some v) (initial_value self) (final_value self) (step_amplitude self).
Definition set_initial_value (self : t) (v : Q) : t :=
  mk (time self) (pv self) (sp self) (output self)
     (step_start_time self) v (final_value self) (step_amplitude self).
Definition set_final_value (self : t) (v : Q) : t :=
  mk (time self) (pv self) (sp self) (output self)
     (step_start_time self) (initial_value self) v (step_amplitude self).
Definition set_step_amplitude (self : t) (v : Q) : t :=
  mk (time self) (pv self) (sp self) (output self)
     (step_start_time self) (initial_value self) (final_value self) v.

(** The metrics dictionary. *)
Abbreviation metrics := (gmap string float64).

(** Body of the step-detection loop once the test at index [i] fired:
    the four assignments, in order. *)
Definition record_step (self : t) (i : Z) : t * outcome unit :=
  match getitem (time self) i with
  | Raise e => (self, Raise e)
  | Ok tm =>
    let self := set_step_start_time self tm in
    let self := set_initial_value self
                  (np_mean (slice (pv self) (Some (Z.max 0 (i - 10))) (Some i))) in
    match getitem (sp self) i with
    | Raise e => (self, Raise e)
    | Ok s =>
      let self := set_final_value self s in
      let self := set_step_amplitude self (final_value self - initial_value self)%Q in
      (self, Ok tt)
    end
  end.

(** [for i in range(1, len(self.sp)): if abs(sp[i] - sp[i-1]) > 0.1: ...; break]
    The boolean tells whether the loop was left by [break] ([true]) or
    ran out ([false], the [else] branch). *)
Fixpoint find_step (self : t) (idxs : list Z) : t * outcome bool :=
  match idxs with
  | [] => (self, Ok false)
  | i :: rest =>
    match (a ← getitem (sp self) i; b ← getitem (sp self) (i - 1);
           Ok (ltb 0.1 (Qabs (a - b)))) with
    | Raise e => (self, Raise e)
    | Ok true =>
      match record_step self i with
      | (self, Raise e) => (self, Raise e)
      | (self, Ok _) => (self, Ok true)
      end
    | Ok false => find_step self rest
    end
  end.

(** The rise-time loop; returns [(rise_start_idx, rise_end_idx)]. *)
Fixpoint rise_scan (pvs : list Q) (rise_10 rise_90 : Q) (idxs : list Z)
    (rise_start_idx : option Z) : outcome (option Z * option Z) :=
  match idxs with
  | [] => Ok (rise_start_idx, None)
  | i :: rest =>
    rs ← match rise_start_idx with
         | None => x ← getitem pvs i; Ok (if leb rise_10 x then Some i else None)
         | Some _ => Ok rise_start_idx
         end;
    x ← getitem pvs i;
    if leb rise_90 x then Ok (rs, Some i)
    else rise_scan pvs rise_10 rise_90 rest rs
  end.

(** Truth value of an index variable: [None] and [0] are false. *)
Definition truthy (o : option Z) : bool :=
  match o with
  | Some i => negb (i =? 0)
  | None => false
  end.

(** The settling loop; [None] when it ran out (the [else] branch). *)
Fixpoint settle_scan (self : t) (start band : Q) (idxs : list Z) : outcome (option Q) :=
  match idxs with
  | [] => Ok None
  | i :: rest =>
    x ← getitem (pv self) i;
    if ltb band (Qabs (x - final_value self)) then
      tm ← getitem (time self) i; Ok (Some (tm - start)%Q)
    else settle_scan self start band rest
  end.

(** Everything after step detection ("Calculate metrics"). *)
Definition compute_metrics (self : t) : outcome metrics :=
  let m : metrics := ∅ in
  let rise_10 := (initial_value self + 0.1 * step_amplitude self)%Q in
  let rise_90 := (initial_value self + 0.9 * step_amplitude self)%Q in
  start ← match step_start_time self with
          | Some s => Ok s
          | None => Raise TypeError
          end;
  let s := int (start * 10) in
  idx ← rise_scan (pv self) rise_10 rise_90 (range s (len (pv self))) None;
  m ← (if truthy idx.1 && truthy idx.2 then
         te ← getitem (time self) (default 0 idx.2);
         ts ← getitem (time self) (default 0 idx.1);
         Ok (<["rise_time" := Finite (te - ts)]> m)
       else Ok m);
  max_pv ← max_seq (slice (pv self) (Some s) None);
  let m := <["overshoot" :=
              np_scale (np_truediv (max_pv - final_value self) (step_amplitude self)) 100]> m in
  let settling_band := (0.02 * step_amplitude self)%Q in
  st ← settle_scan self start settling_band (range_down (len (pv self) - 1) s);
  m ← match st with
      | Some v => Ok (<["settling_time" := Finite v]> m)
      | None => tl ← getitem (time self) (-1);
                Ok (<["settling_time" := Finite (tl - start)]> m)
      end;
  let steady_state_pv := np_mean (slice (pv self) (Some (-20)) None) in
  Ok (<["steady_state_error" := Finite (final_value self - steady_state_pv)]> m).

(** [analyze]: the analyzer after the call and what the call returned
    ([Ok None] is Python's [return None]). *)
Definition analyze (self : t) : t * outcome (option metrics) :=
  if len (time self) <? 10 then (self, Ok None)
  else
    match find_step self (range 1 (len (sp self))) with
    | (self, Raise e) => (self, Raise e)
    | (self, Ok false) => (self, Ok None)
    | (self, Ok true) => (self, m ← compute_metrics self; Ok (Some m))
    end.

(** *** Vocabulary of the properties *)

(** Index [i ≥ 1] is a setpoint jump: [|sp[i] − sp[i-1]| > 0.1]. *)
Definition jump (sps : list Q) (i : nat) : Prop :=
  (1 ≤ i)%nat ∧
  ∃ a b, sps !! i = Some a ∧ sps !! (i - 1)%nat = Some b ∧ (0.1 < Qabs (a - b))%Q.

Definition first_jump (sps : list Q) (i : nat) : Prop :=
  jump sps i ∧ ∀ j, (j < i)%nat → ¬ jump sps j.

Definition is_jump (sps : list Q) (i : nat) : bool :=
  match i, sps !! i, sps !! (i - 1)%nat with
  | S _, Some a, Some b => ltb 0.1 (Qabs (a - b))
  | _, _, _ => false
  end.

(** The up-to-10 process values before index [i]. *)
Definition window_before (pvs : list Q) (i : nat) : list Q :=
  drop (i - 10) (take i pvs).

(** The analyzer once a step at index [i] is recorded, [tm] and [s]
    being the time stamp and the setpoint there. *)
Definition detected (self : t) (i : nat) (tm s : Q) : t :=
  let initial := np_mean (window_before (pv self) i) in
  mk (time self) (pv self) (sp self) (output self)
     (Some tm) initial s (s - initial)%Q.

(** A trace as [add_data] builds it: four lists of one length. *)
Definition trace_wf (self : t) : Prop :=
  length (pv self) = length (time self) ∧
  length (sp self) = length (time self) ∧
  length (output self) = length (time self).

Definition metric_keys : list string :=
  ["rise_time"; "overshoot"; "settling_time"; "steady_state_error"].

(** [i] is the first index, in the order of the scan [idxs], at which
    [P] holds. *)
Definition first_in (P : Z → Prop) (idxs : list Z) (i : Z) : Prop :=
  ∃ pre post, idxs = pre ++ i :: post ∧ P i ∧ ∀ k, k ∈ pre → ¬ P k.

(** [pv[i]] reaches the threshold [r]. *)
Definition reaches (pvs : list Q) (r : Q) (i : Z) : Prop :=
  ∃ x, getitem pvs i = Ok x ∧ (r <= x)%Q.

(** [pv[i]] lies outside the band around the final value:
    [|pv[i] − final_value| > band]. *)
Definition outside (self : t) (band : Q) (i : Z) : Prop :=
  ∃ x, getitem (pv self) i = Ok x ∧ (band < Qabs (x - final_value self))%Q.

(** An index [l[i]] can read. *)
Definition in_range {A} (l : list A) (i : Z) : Prop := - len l ≤ i < len l.

(** The forward scan of the rise-time phase, as [compute_metrics] runs
    it: the pair [(rise_start_idx, rise_end_idx)]. *)
Definition rise_indices (self : t) : outcome (option Z * option Z) :=
  start ← match step_start_time self with
          | Some s => Ok s
          | None => Raise TypeError
          end;
  rise_scan (pv self)
    (initial_value self + 0.1 * step_amplitude self)%Q
    (initial_value self + 0.9 * step_amplitude self)%Q
    (range (int (start * 10)) (len (pv self))) None.

(** The index [int(step_start_time * 10)] at which the metric phases
    start. *)
Definition start_index (self : t) : option Z :=
  (λ s, int (s * 10)) <$> step_start_time self.

(** Observations on what [analyze] returned: was it a metrics dictionary,
    and what does the dictionary hold under a key. *)
Definition is_metrics (r : outcome (option metrics)) : bool :=
  match r with
  | Ok (Some _) => true
  | _ => false
  end.

Definition metric_of (r : outcome (option metrics)) (k : string) : option float64 :=
  match r with
  | Ok (Some m) => m !! k
  | _ => None
  end.

(** Two analyzers hold the same four trace sequences. *)
Definition same_trace (self self' : t) : Prop :=
  time self' = time self ∧ pv self' = pv self ∧
  sp self' = sp self ∧ output self' = output self.

End StepResponseAnalyzer.

(** ** class PIDTuningApp: the data engine *)

Module PIDTuningApp.

(** [collections.deque(maxlen=...)]. *)
Record deque := mk_deque { maxlen : Z; items : list Q }.

Definition deque_new (n : Z) : deque := mk_deque n [].

(** [d.append(x)]: append on the right, then drop the leftmost item
    when the length exceeds [maxlen]. *)
Definition append (d : deque) (x : Q) : deque :=
  let l := items d ++ [x] in
  mk_deque (maxlen d) (if maxlen d <? len l then tail l else l).

Definition clear (d : deque) : deque := mk_deque (maxlen d) [].

Record t := mk {
  max_points : Z;
  time_data : deque;
  pv_data : deque;
  sp_data : deque;
  output_data : deque;
  error_data : deque;
  p_term_data : deque;
  i_term_data : deque;
  d_term_data : deque;
  analyzer : StepResponseAnalyzer.t;
  step_test_active : bool;
  (* The StringVars of the min/max display: [None] is the text "N/A",
     [Some q] a decimal numeral. *)
  pv_min : option Q;
  pv_max : option Q;
  error_min : option Q;
  error_max : option Q;
  output_min : option Q;
  output_max : option Q
}.

(** The part of [__init__] that creates the data engine. *)
Definition init : t :=
  let max_points := 864000 in
  mk max_points
     (deque_new max_points) (deque_new max_points) (deque_new max_points)
     (deque_new max_points) (deque_new max_points) (deque_new max_points)
     (deque_new max_points) (deque_new max_points)
     StepResponseAnalyzer.init false
     None None None None None None.

(** One min/max display variable: ["N/A"] takes the formatted value,
    a numeral is read back and compared ([pick] is [min] or [max]). *)
Definition track (pick : Q → Q → Q) (digits : nat) (current : option Q) (v : Q) : option Q :=
  match current with
  | None => Some (format_f digits v)
  | Some c => Some (format_f digits (pick v c))
  end.

Definition update_minmax (self : t) (pv sp output error : Q) : t :=
  mk (max_points self)
     (time_data self) (pv_data self) (sp_data self) (output_data self)
     (error_data self) (p_term_data self) (i_term_data self) (d_term_data self)
     (analyzer self) (step_test_active self)
     (track Py.min 2 (pv_min self) pv)
     (track Py.max 2 (pv_max self) pv)
     (track Py.min 2 (error_min self) error)
     (track Py.max 2 (error_max self) error)
     (track Py.min 0 (output_min self) output)
     (track Py.max 0 (output_max self) output).

Definition clear_minmax (self : t) : t :=
  mk (max_points self)
     (time_data self) (pv_data self) (sp_data self) (output_data self)
     (error_data self) (p_term_data self) (i_term_data self) (d_term_data self)
     (analyzer self) (step_test_active self)
     None None None None None None.

(** [clear_plot]; its closing [update_plot] call only reads the store
    (and returns at once on an empty one). *)
Definition clear_plot (self : t) : t :=
  mk (max_points self)
     (clear (time_data self)) (clear (pv_data self)) (clear (sp_data self))
     (clear (output_data self)) (clear (error_data self))
     (clear (p_term_data self)) (clear (i_term_data self))
     (clear (d_term_data self))
     (analyzer self) (step_test_active self)
     (pv_min self) (pv_max self) (error_min self) (error_max self)
     (output_min self) (output_max self).

(** A decoded ['data'] message; [P], [I], [D] are optional keys. *)
Record data_msg := mk_data {
  m_time : Q;      (* milliseconds *)
  m_pv : Q;
  m_sp : Q;
  m_output : Q;
  m_error : Q;
  m_P : option Q;
  m_I : option Q;
  m_D : option Q
}.

(** Messages by their ['type'].  A ['status'] message only touches
    widget variables, which are outside this model; any other type is
    ignored by [process_data]. *)
Inductive msg :=
| Data (d : data_msg)
| Status
| StepTestStarted
| StepTestComplete
| Other.

Definition with_analyzer (self : t) (a : StepResponseAnalyzer.t) (active : bool) : t :=
  mk (max_points self)
     (time_data self) (pv_data self) (sp_data self) (output_data self)
     (error_data self) (p_term_data self) (i_term_data self) (d_term_data self)
     a active
     (pv_min self) (pv_max self) (error_min self) (error_max self)
     (output_min self) (output_max self).

(** The ['data'] branch of [process_data]: one ingested sample. *)
Definition ingest (self : t) (d : data_msg) : t :=
  let P := default 0%Q (m_P d) in
  let I := default 0%Q (m_I d) in
  let D := default 0%Q (m_D d) in
  let tm := (m_time d / 1000)%Q in
  let self :=
    mk (max_points self)
       (append (time_data self) tm) (append (pv_data self) (m_pv d))
       (append (sp_data self) (m_sp d)) (append (output_data self) (m_output d))
       (append (error_data self) (m_error d))
       (append (p_term_data self) P) (append (i_term_data self) I)
       (append (d_term_data self) D)
       (analyzer self) (step_test_active self)
       (pv_min self) (pv_max self) (error_min self) (error_max self)
       (output_min self) (output_max self) in
  let self :=
    if step_test_active self then
      with_analyzer self
        (StepResponseAnalyzer.add_data (analyzer self) tm (m_pv d) (m_sp d) (m_output d))
        true
    else self in
  update_minmax self (m_pv d) (m_sp d) (m_output d) (m_error d).

Definition process_msg (self : t) (m : msg) : t :=
  match m with
  | Data d => ingest self d
  | Status => self
  | StepTestStarted =>
    with_analyzer self (StepResponseAnalyzer.reset (analyzer self)) true
  | StepTestComplete => with_analyzer self (analyzer self) false
  | Other => self
  end.

(** [process_data] drains the queue in order. *)
Definition process_data (self : t) (queue : list msg) : t :=
  fold_left process_msg queue self.

(** What can happen to the engine: a queue drain or an operator's
    clear. *)
Inductive action :=
| Process (queue : list msg)
| ClearPlot
| ClearMinMax.

Definition step (self : t) (a : action) : t :=
  match a with
  | Process q => process_data self q
  | ClearPlot => clear_plot self
  | ClearMinMax => clear_minmax self
  end.

Definition run (self : t) (acts : list action) : t := fold_left step acts self.

(** The eight series of the store, in the order of the CSV columns. *)
Definition series (self : t) : list deque :=
  [time_data self; pv_data self; sp_data self; output_data self;
   error_data self; p_term_data self; i_term_data self; d_term_data self].

Definition extrema (self : t) : list (option Q) :=
  [pv_min self; pv_max self; error_min self; error_max self;
   output_min self; output_max self].

(** The eight values one ['data'] message appends, and the eight columns
    a list of messages appends, in the order of [series]. *)
Definition row (d : data_msg) : list Q :=
  [(m_time d / 1000)%Q; m_pv d; m_sp d; m_output d; m_error d;
   default 0%Q (m_P d); default 0%Q (m_I d); default 0%Q (m_D d)].

Definition columns (ds : list data_msg) : list (list Q) :=
  [(λ d, m_time d / 1000)%Q <$> ds; m_pv <$> ds; m_sp <$> ds; m_output <$> ds;
   m_error <$> ds; (λ d, default 0%Q (m_P d)) <$> ds;
   (λ d, default 0%Q (m_I d)) <$> ds; (λ d, default 0%Q (m_D d)) <$> ds].

(** The data messages of a queue, and the samples a run of actions
    ingests. *)
Definition samples (q : list msg) : list data_msg :=
  omap (λ m, match m with Data d => Some d | _ => None end) q.



(** The six extrema as trackers: which of [min]/[max], how many decimals
    the display keeps, which field of the sample; in the order of
    [extrema]. *)
Definition trackers : list ((Q → Q → Q) * nat * (data_msg → Q)) :=
  [(Py.min, 2%nat, m_pv); (Py.max, 2%nat, m_pv);
   (Py.min, 2%nat, m_error); (Py.max, 2%nat, m_error);
   (Py.min, 0%nat, m_output); (Py.max, 0%nat, m_output)].

(** One tracker run over the samples [ds], from the display [cur]. *)
Definition tracked (ds : list data_msg) (tr : (Q → Q → Q) * nat * (data_msg → Q))
    (cur : option Q) : option Q :=
  fold_left (track tr.1.1 tr.1.2) (tr.2 <$> ds) cur.


(** The store invariant: every series is a deque of capacity 864000, as
    long as the time series, and within capacity. *)
Definition store_wf (self : t) : Prop :=
  Forall (λ d, maxlen d = 864000 ∧
               length (items d) = length (items (time_data self)) ∧
               len (items d) ≤ 864000) (series self).

End PIDTuningApp.

(** ** Sample traces *)

Module Traces.
Import StepResponseAnalyzer.

(** [n] time stamps, [dt] apart, from [t0]. *)
Definition stamps (n : nat) (t0 dt : Q) : list Q :=
  (λ k, t0 + inject_Z (Z.of_nat k) * dt)%Q <$> seq 0 n.

Definition trace (tms pvs sps : list Q) : t :=
  mk tms pvs sps (replicate (length tms) 0%Q) None 0 0 0.





(** A test recorded twelve seconds after the controller booted: ten
    samples at 10 Hz, the setpoint steps from 25 to 50 at sample 5. *)
Definition late_step : t :=
  trace (stamps 10 12 0.1)
        [25; 25; 25; 25; 25; 26; 30; 36; 41; 45]%Q
        (replicate 5 25 ++ replicate 5 50)%Q.

(** A downward step right after boot, sampled every 50 ms: the setpoint
    falls from 50 to 25 at sample 1. *)
Definition down_step : t :=
  trace (stamps 10 0 0.05)
        [50; 50; 49; 45; 40; 30; 26; 25; 25; 25]%Q
        (50 :: replicate 9 25)%Q.

(** An upward step from 0 to 10 at sample 1, sampled every 125 ms. *)
Definition up_step : t :=
  trace (stamps 10 0 0.125)
        [0; 0; 1; 4; 8; 9.5; 10; 10; 10; 10]%Q
        (0 :: replicate 9 10)%Q.

(** Ten samples stamped before the clock's zero. *)
Definition negative_times : t :=
  trace (stamps 10 (-5) 0.1)
        [25; 25; 25; 25; 25; 26; 30; 36; 41; 45]%Q
        (replicate 5 25 ++ replicate 5 50)%Q.

(** The process value creeps up and stays short of 90 % of the step. *)
Definition slow_step : t :=
  trace (stamps 10 0 0.125)
        [0; 0; 1; 2; 3; 4; 5; 5; 5; 5]%Q
        (0 :: replicate 9 10)%Q.

End Traces.

(** ** Sample sessions *)

Module Sessions.
Import PIDTuningApp.

Definition sample (tm pv sp out err : Q) : data_msg :=
  mk_data tm pv sp out err None None None.

(** One sample whose values have more decimals than the display keeps. *)
Definition fine_sample : data_msg := sample 1000 1.3125 25 12.75 23.6875.

(** The process values 5, 2, 9, 1 across two queue drains and a plot
    clear. *)
Definition four_samples : list action :=
  [Process [Status; Data (sample 100 5 25 100 20); Data (sample 200 2 25 110 23)];
   ClearPlot;
   Process [Data (sample 300 9 25 90 16); StepTestStarted; Data (sample 400 1 25 120 24)]].

End Sessions.

(** ** Further vocabulary and sample traces *)

Module More.
Import StepResponseAnalyzer.

(** Time stamps that never go back. *)
Definition nondecreasing (l : list Q) : Prop :=
  ∀ (a b : nat) x y, (a ≤ b)%nat → l !! a = Some x → l !! b = Some y → (x <= y)%Q.

Fixpoint nondecreasingb (l : list Q) : bool :=
  match l with
  | x :: (y :: _) as r => leb x y && nondecreasingb r
  | _ => true
  end.

(** The setpoint steps from 0 to 10 at sample 1 while the process value
    already sits at 10: the measured amplitude is zero. *)
Definition flat_step : t :=
  Traces.trace (Traces.stamps 10 0 0.125) (replicate 10 10%Q) (0 :: replicate 9 10)%Q.

End More.

(** ** Vocabulary for message queues *)

Module Queues.
Import PIDTuningApp.


Definition no_step_events (q : list msg) : bool :=
  forallb (λ m, match m with StepTestStarted | StepTestComplete => false | _ => true end) q.

(** The four columns the analyzer records of a list of samples. *)
Definition recorded (a : StepResponseAnalyzer.t) (ds : list data_msg) : StepResponseAnalyzer.t :=
  StepResponseAnalyzer.mk
    (StepResponseAnalyzer.time a ++ ((λ d, m_time d / 1000)%Q <$> ds))
    (StepResponseAnalyzer.pv a ++ (m_pv <$> ds))
    (StepResponseAnalyzer.sp a ++ (m_sp <$> ds))
    (StepResponseAnalyzer.output a ++ (m_output <$> ds))
    (StepResponseAnalyzer.step_start_time a) (StepResponseAnalyzer.initial_value a)
    (StepResponseAnalyzer.final_value a) (StepResponseAnalyzer.step_amplitude a).


End Queues.

(** ** PIDTuningApp.update_plot: the visible window and the axis limits *)

Module Plot.
Import PIDTuningApp.

(** [min(l)] of a sequence: ValueError when it is empty. *)
Definition min_seq (l : list Q) : outcome Q :=
  match l with
  | [] => Raise ValueError
  | x :: l' => Ok (fold_left Py.min l' x)
  end.

(** The plot settings (Tk variables) and what the three charts show:
    the data of the four lines, the x limits and the y limits. *)
Record t := mk {
  time_window : Z;               (* seconds *)
  auto_y_scale_pv : bool;
  auto_y_scale_output : bool;
  auto_y_scale_error : bool;
  pv_line : list Q * list Q;
  sp_line : list Q * list Q;
  output_line : list Q * list Q;
  error_line : list Q * list Q;
  xlim1 : option (Q * Q);        (* [None]: never set *)
  xlim2 : option (Q * Q);
  xlim3 : option (Q * Q);
  ylim1 : Q * Q;
  ylim2 : Q * Q;
  ylim3 : Q * Q
}.

(** [__init__] and [setup_plot_panel]. *)
Definition init : t :=
  mk 60 true false false ([], []) ([], []) ([], []) ([], [])
     None None None (0, 100)%Q (-10, 265)%Q (-20, 20)%Q.

(** [for i, t in enumerate(self.time_data): if t >= x_min: ...; break] *)
Fixpoint first_visible (x_min : Q) (ts : list Q) (i : Z) : option Z :=
  match ts with
  | [] => None
  | t :: rest => if leb x_min t then Some i else first_visible x_min rest (i + 1)
  end.

(** [max(0, self.time_data[-1] - self.time_window.get())] *)
Definition x_min (window : Z) (t_last : Q) : Q := Py.max 0 (t_last - inject_Z window).

Definition set_lines_and_xlim (v : t) (tm pvs sps outs errs : list Q) (xl : Q * Q) : t :=
  mk (time_window v) (auto_y_scale_pv v) (auto_y_scale_output v) (auto_y_scale_error v)
     (tm, pvs) (tm, sps) (tm, outs) (tm, errs)
     (Some xl) (Some xl) (Some xl) (ylim1 v) (ylim2 v) (ylim3 v).

Definition set_ylim1 (v : t) (yl : Q * Q) : t :=
  mk (time_window v) (auto_y_scale_pv v) (auto_y_scale_output v) (auto_y_scale_error v)
     (pv_line v) (sp_line v) (output_line v) (error_line v)
     (xlim1 v) (xlim2 v) (xlim3 v) yl (ylim2 v) (ylim3 v).
Definition set_ylim2 (v : t) (yl : Q * Q) : t :=
  mk (time_window v) (auto_y_scale_pv v) (auto_y_scale_output v) (auto_y_scale_error v)
     (pv_line v) (sp_line v) (output_line v) (error_line v)
     (xlim1 v) (xlim2 v) (xlim3 v) (ylim1 v) yl (ylim3 v).
Definition set_ylim3 (v : t) (yl : Q * Q) : t :=
  mk (time_window v) (auto_y_scale_pv v) (auto_y_scale_output v) (auto_y_scale_error v)
     (pv_line v) (sp_line v) (output_line v) (error_line v)
     (xlim1 v) (xlim2 v) (xlim3 v) (ylim1 v) (ylim2 v) yl.

(** The three auto-scale blocks; [None] when the block is skipped. *)
Definition scale_pv (v : t) (visible_pv visible_sp : list Q) : outcome (option (Q * Q)) :=
  if auto_y_scale_pv v && (0 <? len visible_pv) then
    a ← min_seq visible_pv; b ← min_seq visible_sp;
    let y_min := (Py.min a b - 5)%Q in
    c ← max_seq visible_pv; d ← max_seq visible_sp;
    let y_max := (Py.max c d + 5)%Q in
    Ok (Some (y_min, y_max))
  else Ok None.

Definition scale_one (enabled : bool) (margin : Q) (visible : list Q) : outcome (option (Q * Q)) :=
  if enabled && (0 <? len visible) then
    a ← min_seq visible;
    let y_min := (a - margin)%Q in
    c ← max_seq visible;
    let y_max := (c + margin)%Q in
    Ok (Some (y_min, y_max))
  else Ok None.

(** [update_plot]: the view after the call and whether the call
    raised (the limits set before an exception stay set). *)
Definition update_plot (app : PIDTuningApp.t) (v : t) : t * outcome unit :=
  let times := items (time_data app) in
  if 0 <? len times then
    match (t_last ← getitem times (-1);
           x_max ← getitem times (-1);
           Ok (x_min (time_window v) t_last, x_max)) with
    | Raise e => (v, Raise e)
    | Ok xl =>
      let visible_start := default 0 (first_visible xl.1 times 0) in
      let visible := λ d : deque, slice (items d) (Some visible_start) None in
      let v := set_lines_and_xlim v times (items (pv_data app)) (items (sp_data app))
                 (items (output_data app)) (items (error_data app)) xl in
      match scale_pv v (visible (pv_data app)) (visible (sp_data app)) with
      | Raise e => (v, Raise e)
      | Ok y1 =>
        let v := from_option (set_ylim1 v) v y1 in
        match scale_one (auto_y_scale_output v) 10 (visible (output_data app)) with
        | Raise e => (v, Raise e)
        | Ok y2 =>
          let v := from_option (set_ylim2 v) v y2 in
          match scale_one (auto_y_scale_error v) 2 (visible (error_data app)) with
          | Raise e => (v, Raise e)
          | Ok y3 => (from_option (set_ylim3 v) v y3, Ok tt)
          end
        end
      end
    end
  else (v, Ok tt).

(** The operator's check boxes and the time-window choice. *)
Definition set_auto (v : t) (pv out err : bool) : t :=
  mk (time_window v) pv out err
     (pv_line v) (sp_line v) (output_line v) (error_line v)
     (xlim1 v) (xlim2 v) (xlim3 v) (ylim1 v) (ylim2 v) (ylim3 v).

Definition set_time_window (v : t) (w : Z) : t :=
  mk w (auto_y_scale_pv v) (auto_y_scale_output v) (auto_y_scale_error v)
     (pv_line v) (sp_line v) (output_line v) (error_line v)
     (xlim1 v) (xlim2 v) (xlim3 v) (ylim1 v) (ylim2 v) (ylim3 v).

(** An index of the store is inside the window when its time stamp is
    at least [x_min]. *)
Definition in_window (app : PIDTuningApp.t) (v : t) (k : nat) : Prop :=
  ∃ tm t_last, items (time_data app) !! k = Some tm ∧
               last (items (time_data app)) = Some t_last ∧
               (x_min (time_window v) t_last <= tm)%Q.

End Plot.

(** ** PIDTuningApp.save_data: the rows of the CSV export *)

Module Save.
Import PIDTuningApp.

Definition header : list string :=
  ["Time (s)"; "Process Value"; "Setpoint"; "Output"; "Error";
   "P Term"; "I Term"; "D Term"].

(** What [save_data] did: warned that there is nothing to save, returned
    because the dialog gave no file name, or wrote the header and these
    rows; an exception inside the writing is caught and reported, the rows
    before it are in the file. *)
Inductive result :=
| NoData
| Cancelled
| Written (rows : list (list Q)) (error : option exn).

(** One row of the loop. *)
Definition row_at (self : t) (t0 : Q) (i : Z) : outcome (list Q) :=
  tm ← getitem (items (time_data self)) i;
  pv ← getitem (items (pv_data self)) i;
  sp ← getitem (items (sp_data self)) i;
  out ← getitem (items (output_data self)) i;
  err ← getitem (items (error_data self)) i;
  p ← getitem (items (p_term_data self)) i;
  i_ ← getitem (items (i_term_data self)) i;
  d ← getitem (items (d_term_data self)) i;
  Ok [(tm - t0)%Q; pv; sp; out; err; p; i_; d].

(** [for i in range(len(self.time_data)): writer.writerow([...])] *)
Fixpoint write_rows (self : t) (t0 : Q) (idxs : list Z) : list (list Q) * option exn :=
  match idxs with
  | [] => ([], None)
  | i :: rest =>
    match row_at self t0 i with
    | Raise e => ([], Some e)
    | Ok r => let '(rs, e) := write_rows self t0 rest in (r :: rs, e)
    end
  end.

(** [save_data]; [filename] is what the file dialog returned (the empty
    string when it was cancelled), and the file can be opened. *)
Definition save_data (self : t) (filename : string) : result :=
  let times := items (time_data self) in
  if len times =? 0 then NoData
  else if String.eqb filename "" then Cancelled
  else
    let t0 := match times with t0 :: _ => t0 | [] => 0%Q end in
    let '(rows, e) := write_rows self t0 (range 0 (len times)) in
    Written rows e.

(** Column [c] of the written rows. *)
Definition column (c : nat) (rows : list (list Q)) : list (option Q) :=
  (λ r, r !! c) <$> rows.

End Save.

(** ** PIDTuningApp.serial_read_thread: framing of the serial stream *)

Module Reader.

(** A Python [str]: its code points. *)
Definition str := list N.

Definition newline : N := 10%N.

(** [str.isspace] of one character, the characters [str.strip()] removes. *)
Definition isspace (c : N) : bool :=
  ((9 <=? c) && (c <=? 13) || (28 <=? c) && (c <=? 32) || (c =? 133) || (c =? 160) ||
   (c =? 5760) || (8192 <=? c) && (c <=? 8202) || (c =? 8232) || (c =? 8233) ||
   (c =? 8239) || (c =? 8287) || (c =? 12288))%N.

Fixpoint lstrip (s : str) : str :=
  match s with
  | c :: r => if isspace c then lstrip r else s
  | [] => []
  end.

Definition rstrip (s : str) : str := rev (lstrip (rev s)).

(** [s.strip()] *)
Definition strip (s : str) : str := rstrip (lstrip s).

(** [line, rest = s.split('\n', 1)] for [s] with a ['\n'] in it; [None]
    when there is none, which is the negation of the loop's condition
    ['\n' in buffer]. *)
Fixpoint split_once (s : str) : option (str * str) :=
  match s with
  | [] => None
  | c :: r =>
    if (c =? newline)%N then Some ([], r)
    else match split_once r with
         | Some (line, rest) => Some (c :: line, rest)
         | None => None
         end
  end.

Section WithLoads.

(** The messages, and [json.loads] on one line: [None] is JSONDecodeError. *)
Context {M : Type} (loads : str → option M).

(** The buffer of the thread, the messages put on [data_queue] so far, and
    whether the thread still runs. *)
Record t := mk { buffer : str; data_queue : list M; alive : bool }.

Definition init : t := mk [] [] true.

(** [while '\n' in buffer: ...]; the fuel bounds the number of rounds. *)
Fixpoint drain (fuel : nat) (buffer : str) (queue : list M) : option (str * list M) :=
  match split_once buffer with
  | None => Some (buffer, queue)
  | Some (line, rest) =>
    match fuel with
    | O => None
    | S fuel' =>
      let line := strip line in
      let queue :=
        match line with
        | [] => queue
        | _ => match loads line with
               | Some msg => queue ++ [msg]
               | None => queue
               end
        end in
      drain fuel' rest queue
    end
  end.

(** [buffer += data] and the inner loop; every round removes a character,
    so the length of the buffer is fuel enough. *)
Definition feed (self : t) (data : str) : t :=
  let buffer := buffer self ++ data in
  match drain (length buffer) buffer (data_queue self) with
  | Some (buffer, queue) => mk buffer queue true
  | None => self
  end.

(** What one round of the outer loop meets: nothing waiting, bytes that
    decode to [data], a port that was closed, or an exception while
    reading or decoding. *)
Inductive event :=
| Idle
| Text (data : str)
| Closed
| Fails.

Definition iteration (self : t) (ev : event) : t :=
  if alive self then
    match ev with
    | Idle => self
    | Text data => feed self data
    | Closed | Fails => mk (buffer self) (data_queue self) false
    end
  else self.

Definition run (self : t) (evs : list event) : t := fold_left iteration evs self.

(** The line as the loop treats it: stripped, dropped when blank or when
    it does not parse. *)
Definition parse (line : str) : option M :=
  match strip line with
  | [] => None
  | l => loads l
  end.

End WithLoads.

(** The complete lines of a text and what follows the last ['\n']. *)
Fixpoint split_lines (s : str) : list str * str :=
  match s with
  | [] => ([], [])
  | c :: r =>
    let '(ls, rest) := split_lines r in
    if (c =? newline)%N then ([] :: ls, rest)
    else match ls with
         | [] => ([], c :: rest)
         | l :: ls' => ((c :: l) :: ls', rest)
         end
  end.

(** The text read while the thread ran, and whether it was stopped. *)
Fixpoint received (evs : list event) : str :=
  match evs with
  | [] => []
  | Idle :: r => received r
  | Text data :: r => data ++ received r
  | (Closed | Fails) :: _ => []
  end.

Definition stopped (evs : list event) : bool :=
  existsb (λ ev, match ev with Closed | Fails => true | _ => false end) evs.

(** The line [{"type":"x"}], for the examples. *)
Definition sample_line : str :=
  [123; 34; 116; 121; 112; 101; 34; 58; 34; 120; 34; 125]%N.

End Reader.

(** ** Facts about the built-ins *)

(** Peel one [x ← m; k] off a hypothesis [... = Ok _]. *)
Ltac bind_ok H :=
  lazymatch type of H with
  | mbind ?k ?x = Ok _ =>
    let E := fresh "E" in
    destruct x eqn:E; [change (mbind k (Ok ?a)) with (k a) in H; cbv beta in H | discriminate H]
  end.

Section PyFacts.

Context {A : Type}.
Implicit Types (l : list A) (i : Z).

Lemma outcome_bind_ok {B C} (x : B) (k : B → outcome C) : (Ok x ≫= k) = k x.
Proof. reflexivity. Qed.

Lemma outcome_bind_raise {B C} e (k : B → outcome C) : (Raise e ≫= k) = Raise e.
Proof. reflexivity. Qed.

Lemma len_nonneg l : 0 ≤ len l.
Proof. unfold len. lia. Qed.

Lemma getitem_nat l (n : nat) x :
  l !! n = Some x → getitem l (Z.of_nat n) = Ok x.
Proof.
  intros H. unfold getitem.
  destruct (Z.ltb_spec (Z.of_nat n) 0); [lia|].
  destruct (Z.ltb_spec (Z.of_nat n) 0); [lia|].
  by rewrite Nat2Z.id, H.
Qed.

Lemma getitem_nat_None l (n : nat) :
  l !! n = None → getitem l (Z.of_nat n) = Raise IndexError.
Proof.
  intros H. unfold getitem.
  destruct (Z.ltb_spec (Z.of_nat n) 0); [lia|].
  destruct (Z.ltb_spec (Z.of_nat n) 0); [lia|].
  by rewrite Nat2Z.id, H.
Qed.

Lemma getitem_Ok l i x :
  getitem l i = Ok x ↔
  (- len l ≤ i < len l) ∧ l !! position l i = Some x.
Proof.
  unfold getitem, position.
  set (j := if i <? 0 then i + len l else i).
  assert (Hj : j = if i <? 0 then i + len l else i) by done.
  clearbody j. unfold len in *.
  destruct (Z.ltb_spec j 0) as [Hlt|Hge].
  - split; [done|]. intros [Hr _]. destruct (Z.ltb_spec i 0); lia.
  - destruct (l !! Z.to_nat j) as [y|] eqn:E.
    + apply lookup_lt_Some in E.
      split; [intros [= ->] | intros [_ [= ->]]]; [|done].
      split; [|done]. destruct (Z.ltb_spec i 0); lia.
    + split; [done | intros [_ ?]; done].
Qed.

Lemma getitem_is_Ok l i :
  - len l ≤ i < len l → ∃ x, getitem l i = Ok x.
Proof.
  intros Hi.
  destruct (l !! position l i) as [x|] eqn:E.
  - exists x. by apply getitem_Ok.
  - apply lookup_ge_None in E. unfold position, len in *.
    destruct (Z.ltb_spec i 0); lia.
Qed.

Lemma getitem_raises l i e : getitem l i = Raise e → e = IndexError.
Proof.
  unfold getitem. destruct (_ <? 0); [congruence|].
  destruct (l !! _); congruence.
Qed.

Lemma getitem_out_of_range l i :
  ¬ (- len l ≤ i < len l) → getitem l i = Raise IndexError.
Proof.
  intros Hi. destruct (getitem l i) as [x|e] eqn:E.
  - apply getitem_Ok in E as [? _]. done.
  - by rewrite (getitem_raises _ _ _ E).
Qed.

Lemma slice_from_past_end l i : len l ≤ i → slice l (Some i) None = [].
Proof.
  intros Hi. unfold slice, clamp; simpl. pose proof (len_nonneg l).
  destruct (Z.ltb_spec i 0); [lia|].
  replace (Z.min i (len l)) with (len l) by lia.
  by rewrite Z.sub_diag.
Qed.

Lemma slice_from_length l i :
  length (slice l (Some i) None) =
  Z.to_nat (len l - (if i <? 0 then Z.max 0 (i + len l) else Z.min i (len l))).
Proof.
  unfold slice, clamp; simpl. rewrite length_take, length_drop.
  unfold len. destruct (Z.ltb_spec i 0); lia.
Qed.

Lemma slice_between l (a b : nat) :
  (a ≤ b ≤ length l)%nat →
  slice l (Some (Z.of_nat a)) (Some (Z.of_nat b)) = drop a (take b l).
Proof.
  intros Hab. unfold slice, clamp, len; simpl.
  destruct (Z.ltb_spec (Z.of_nat a) 0); [lia|].
  destruct (Z.ltb_spec (Z.of_nat b) 0); [lia|].
  replace (Z.to_nat _) with (b - a)%nat by lia.
  replace (Z.to_nat _) with a by lia.
  by rewrite take_drop_commute, Nat.add_comm, Nat.sub_add by lia.
Qed.

End PyFacts.

Lemma range_nat (a b : nat) :
  range (Z.of_nat a) (Z.of_nat b) = Z.of_nat <$> seq a (b - a).
Proof.
  unfold range. replace (Z.to_nat _) with (b - a)%nat by lia.
  generalize (b - a)%nat as n. intros n.
  apply list_eq. intros i. rewrite !list_lookup_fmap.
  destruct (decide (i < n)%nat) as [Hi|Hi].
  - rewrite !lookup_seq_lt by done. simpl. f_equal. lia.
  - by rewrite !lookup_seq_ge by lia.
Qed.

Lemma range_empty lo hi : hi ≤ lo → range lo hi = [].
Proof. intros H. unfold range. by replace (Z.to_nat _) with 0%nat by lia. Qed.

Lemma range_down_empty hi lo : hi ≤ lo → range_down hi lo = [].
Proof. intros H. unfold range_down. by replace (Z.to_nat _) with 0%nat by lia. Qed.

Lemma ltb_lt x y : ltb x y = true ↔ (x < y)%Q.
Proof.
  unfold ltb. rewrite negb_true_iff, <- not_true_iff_false, Qle_bool_iff.
  split; [apply Qnot_le_lt | apply Qlt_not_le].
Qed.

Lemma ltb_ge x y : ltb x y = false ↔ (y <= x)%Q.
Proof. unfold ltb. by rewrite negb_false_iff, Qle_bool_iff. Qed.

Lemma leb_le x y : leb x y = true ↔ (x <= y)%Q.
Proof. apply Qle_bool_iff. Qed.

(** ** Step detection *)

Section StepDetection.
Import StepResponseAnalyzer.

Implicit Types (self : t) (i j : nat).

Lemma record_step_spec self i tm s :
  length (pv self) = length (time self) →
  time self !! i = Some tm → sp self !! i = Some s →
  record_step self (Z.of_nat i) = (detected self i tm s, Ok tt).
Proof.
  intros Hpv Ht Hs. unfold record_step.
  rewrite (getitem_nat _ _ _ Ht). simpl.
  rewrite (getitem_nat _ _ _ Hs).
  apply lookup_lt_Some in Ht.
  replace (Z.max 0 (Z.of_nat i - 10)) with (Z.of_nat (i - 10)) by lia.
  rewrite slice_between by lia. reflexivity.
Qed.

(** The loop test at a valid index decides [jump]. *)
Lemma jump_test self i :
  (1 ≤ i < length (sp self))%nat →
  ∃ b : bool,
    (a ← getitem (sp self) (Z.of_nat i); b ← getitem (sp self) (Z.of_nat i - 1);
     Ok (ltb 0.1 (Qabs (a - b)))) = Ok b ∧
    (b = true ↔ jump (sp self) i).
Proof.
  intros Hi.
  destruct (lookup_lt_is_Some_2 (sp self) i) as [x Hx]; [lia|].
  destruct (lookup_lt_is_Some_2 (sp self) (i - 1)) as [y Hy]; [lia|].
  exists (ltb 0.1 (Qabs (x - y))).
  replace (Z.of_nat i - 1) with (Z.of_nat (i - 1)) by lia.
  rewrite (getitem_nat _ _ _ Hx), (getitem_nat _ _ _ Hy). split; [done|].
  rewrite ltb_lt. split.
  - intros H. split; [lia|]. by exists x, y.
  - intros [_ (a & b & Ha & Hb & H)]. congruence.
Qed.

Lemma find_step_spec self a n :
  trace_wf self → (1 ≤ a)%nat → (a + n ≤ length (sp self))%nat →
  ((∀ j, (a ≤ j < a + n)%nat → ¬ jump (sp self) j) ∧
   find_step self (Z.of_nat <$> seq a n) = (self, Ok false))
  ∨
  (∃ i tm s,
      (a ≤ i < a + n)%nat ∧ jump (sp self) i ∧
      (∀ j, (a ≤ j < i)%nat → ¬ jump (sp self) j) ∧
      time self !! i = Some tm ∧ sp self !! i = Some s ∧
      find_step self (Z.of_nat <$> seq a n) = (detected self i tm s, Ok true)).
Proof.
  intros Hwf. revert a. induction n as [|n IH]; intros a Ha Hlen.
  - left. split; [intros; lia | done].
  - change (seq a (S n)) with (a :: seq (S a) n). rewrite fmap_cons.
    cbn [find_step].
    destruct (jump_test self a) as (b & -> & Hb); [lia|].
    destruct b.
    + right. destruct Hwf as (Hpv & Hsp & _).
      destruct (lookup_lt_is_Some_2 (time self) a) as [tm Htm]; [lia|].
      destruct (lookup_lt_is_Some_2 (sp self) a) as [s Hs]; [lia|].
      exists a, tm, s. rewrite (record_step_spec _ _ _ _ Hpv Htm Hs).
      split_and!; try done; try lia. by apply Hb.
    + destruct (IH (S a)) as [[Hno ->] | (i & tm & s & Hi & Hj & Hno & Htm & Hs & ->)];
        [lia | lia | left | right].
      * split; [|done]. intros j Hj.
        destruct (decide (j = a)) as [->|]; [|apply Hno; lia].
        intros Hjump. apply Hb in Hjump. done.
      * exists i, tm, s. split_and!; try done; try lia.
        intros j Hj'.
        destruct (decide (j = a)) as [->|]; [|apply Hno; lia].
        intros Hjump. apply Hb in Hjump. done.
Qed.

(** The loop as [analyze] runs it, over [range(1, len(sp))]. *)
Lemma find_step_range self :
  trace_wf self →
  ((∀ j, ¬ jump (sp self) j) ∧
   find_step self (range 1 (len (sp self))) = (self, Ok false))
  ∨
  (∃ i tm s,
      first_jump (sp self) i ∧
      time self !! i = Some tm ∧ sp self !! i = Some s ∧
      find_step self (range 1 (len (sp self))) = (detected self i tm s, Ok true)).
Proof.
  intros Hwf. unfold len. rewrite (range_nat 1).
  assert (Hout : ∀ j, ¬ (1 ≤ j < length (sp self))%nat → ¬ jump (sp self) j).
  { intros j Hj [H1 (a & b & Ha & _)]. apply lookup_lt_Some in Ha. lia. }
  destruct (decide (length (sp self) = 0)%nat) as [Hnil|Hne].
  { left. rewrite Hnil. split; [|done]. intros j. apply Hout. lia. }
  destruct (find_step_spec self 1 (length (sp self) - 1) Hwf)
    as [[Hno ->] | (i & tm & s & Hi & Hj & Hno & Htm & Hs & ->)]; [lia | lia | left | right].
  - split; [|done]. intros j.
    destruct (decide (1 ≤ j < length (sp self))%nat); [apply Hno; lia | by apply Hout].
  - exists i, tm, s. unfold first_jump. split_and!; try done.
    intros j Hji. destruct (decide (1 ≤ j)%nat); [apply Hno; lia | apply Hout; lia].
Qed.

Lemma first_jump_unique sps i j : first_jump sps i → first_jump sps j → i = j.
Proof.
  intros [Hi Hni] [Hj Hnj].
  destruct (Nat.lt_trichotomy i j) as [H|[H|H]]; [|done|].
  - by apply Hnj in H.
  - by apply Hni in H.
Qed.

End StepDetection.

(** ** What [analyze] returns and records *)

Section Analyze.
Import StepResponseAnalyzer.

Implicit Types (self : t) (i j : nat).

Lemma is_jump_spec sps i : is_jump sps i = true ↔ jump sps i.
Proof.
  unfold is_jump, jump. destruct i as [|i].
  - split; [done | intros [? _]; lia].
  - destruct (sps !! S i) as [a|] eqn:Ha; [|split; [done | by intros [_ (? & ? & ? & _)]]].
    destruct (sps !! (S i - 1)%nat) as [b|] eqn:Hb;
      [|split; [done | by intros [_ (? & ? & _ & ? & _)]]].
    rewrite ltb_lt. split.
    + intros H. split; [lia|]. by exists a, b.
    + intros [_ (a' & b' & [= <-] & [= <-] & H)]. done.
Qed.

(** Deciding [first_jump] by evaluation. *)
Lemma first_jump_check sps i :
  is_jump sps i = true →
  forallb (λ j, negb (is_jump sps j)) (seq 0 i) = true →
  first_jump sps i.
Proof.
  intros Hi Hall. split; [by apply is_jump_spec|].
  intros j Hj Hjump. apply is_jump_spec in Hjump.
  rewrite forallb_forall in Hall. specialize (Hall j).
  rewrite Hjump in Hall. discriminate Hall. apply in_seq. lia.
Qed.


Lemma window_before_length pvs i :
  (i ≤ length pvs)%nat → length (window_before pvs i) = Nat.min i 10.
Proof. intros H. unfold window_before. rewrite length_drop, length_take. lia. Qed.



Lemma analyze_detected self i :
  trace_wf self → (10 ≤ length (time self))%nat → first_jump (sp self) i →
  ∃ tm s, time self !! i = Some tm ∧ sp self !! i = Some s ∧
    analyze self =
      (detected self i tm s, m ← compute_metrics (detected self i tm s); Ok (Some m)).
Proof.
  intros Hwf Hlen Hfirst. unfold analyze.
  destruct (Z.ltb_spec (len (time self)) 10) as [Hlt|Hge];
    [unfold len in Hlt; lia|].
  destruct (find_step_range self Hwf)
    as [[Hno _] | (i' & tm & s & Hfirst' & Htm & Hs & ->)].
  { destruct Hfirst as [Hj _]. by apply Hno in Hj. }
  rewrite (first_jump_unique _ _ _ Hfirst Hfirst'). by exists tm, s.
Qed.





End Analyze.

(** ** [analyze] reads the trace and can be repeated *)

Section Idempotence.
Import StepResponseAnalyzer.

Implicit Types (self : t).

Lemma record_step_trace self i : same_trace self (record_step self i).1.
Proof.
  unfold record_step. destruct (getitem (time self) i); [|done].
  simpl. destruct (getitem (sp self) i); done.
Qed.

Lemma record_step_idem self i :
  record_step (record_step self i).1 i = record_step self i.
Proof.
  unfold record_step.
  destruct (getitem (time self) i) as [tm|e] eqn:Et; simpl; [|by rewrite Et].
  destruct (getitem (sp self) i) as [s|e] eqn:Es; simpl; by rewrite Et, ?Es.
Qed.

Lemma find_step_trace self idxs : same_trace self (find_step self idxs).1.
Proof.
  induction idxs as [|i rest IH]; [done|]. cbn [find_step].
  destruct (_ ≫= _) as [[|]|]; [|done|done].
  pose proof (record_step_trace self i) as H.
  destruct (record_step self i) as [self' [|]]; done.
Qed.

Lemma find_step_idem self idxs :
  find_step (find_step self idxs).1 idxs = find_step self idxs.
Proof.
  induction idxs as [|i rest IH]; [done|].
  destruct (find_step_trace self (i :: rest)) as (_ & _ & Hsp & _).
  cbn [find_step] in *. rewrite Hsp.
  destruct (_ ≫= _) as [[|]|]; [| |done].
  - pose proof (record_step_idem self i) as H.
    destruct (record_step self i) as [self' [|]]; simpl in *; by rewrite H.
  - destruct (find_step_trace self rest) as (_ & _ & Hsp' & _).
    rewrite <- Hsp' in Hsp. done.
Qed.

(** C9.  Calling [analyze] a second time, on the analyzer the first
    call left behind, gives the same outcome (the same metrics, the same
    [None], or the same exception) and the same analyzer; the four trace
    sequences are those the first call was given. *)
Theorem analyze_idempotent self :
  (analyze (analyze self).1).2 = (analyze self).2 ∧
  (analyze (analyze self).1).1 = (analyze self).1 ∧
  same_trace self (analyze self).1.
Proof.
  unfold analyze.
  destruct (len (time self) <? 10) eqn:Hlen; simpl; [by rewrite Hlen|].
  pose proof (find_step_trace self (range 1 (len (sp self)))) as (Ht & Hp & Hs & Ho).
  pose proof (find_step_idem self (range 1 (len (sp self)))) as Hidem.
  destruct (find_step self (range 1 (len (sp self)))) as [self' r] eqn:E.
  simpl in *.
  assert (Hsame : (if len (time self') <? 10 then (self', Ok None)
                   else match find_step self' (range 1 (len (sp self'))) with
                        | (s, Raise e) => (s, Raise e)
                        | (s, Ok false) => (s, Ok None)
                        | (s, Ok true) => (s, m ← compute_metrics s; Ok (Some m))
                        end) =
                  match r with
                  | Raise e => (self', Raise e)
                  | Ok false => (self', Ok None)
                  | Ok true => (self', m ← compute_metrics self'; Ok (Some m))
                  end).
  { rewrite Ht, Hlen, Hs, Hidem. reflexivity. }
  destruct r as [[|]|e]; simpl; rewrite Hsame; done.
Qed.

End Idempotence.

(** ** The metrics dictionary *)

Section Metrics.
Import StepResponseAnalyzer.

Implicit Types (self : t) (m : metrics).

Lemma is_metrics_inv (r : outcome (option metrics)) :
  is_metrics r = true → ∃ m, r = Ok (Some m).
Proof. destruct r as [[m|]|]; [eauto | done | done]. Defined.

Lemma analyze_Some self m :
  (analyze self).2 = Ok (Some m) → compute_metrics (analyze self).1 = Ok m.
Proof.
  unfold analyze. destruct (len (time self) <? 10); [done|].
  destruct (find_step self _) as [self' [[|]|e]]; simpl; [|done|done].
  destruct (compute_metrics self'); simpl; congruence.
Qed.

Lemma compute_metrics_fields self m :
  compute_metrics self = Ok m →
  is_Some (m !! "overshoot") ∧ is_Some (m !! "settling_time") ∧
  is_Some (m !! "steady_state_error") ∧
  ∀ k, is_Some (m !! k) → k ∈ metric_keys.
Proof.
  intros H. unfold compute_metrics in H.
  bind_ok H. bind_ok H. bind_ok H. bind_ok H. bind_ok H. bind_ok H.
  injection H as <-.
  assert (Ha0 : ∀ k, is_Some (a1 !! k) → k = "rise_time").
  { intros k. destruct (truthy _ && truthy _).
    - bind_ok E1. bind_ok E1. injection E1 as <-.
      rewrite lookup_insert_is_Some, lookup_empty. intros [?|[_ [? ?]]]; done.
    - injection E1 as <-. rewrite lookup_empty. by intros [? ?]. }
  assert (Ha4 : ∃ v, a4 = <["settling_time" := v]> (<["overshoot" :=
             np_scale (np_truediv (a2 - final_value self) (step_amplitude self)) 100]> a1)).
  { destruct a3.
    - injection E4 as <-. eauto.
    - bind_ok E4. injection E4 as <-. eauto. }
  destruct Ha4 as [v ->].
  split_and!.
  - by rewrite lookup_insert_ne, lookup_insert_ne, lookup_insert_eq.
  - by rewrite lookup_insert_ne, lookup_insert_eq.
  - by rewrite lookup_insert_eq.
  - intros k. rewrite !lookup_insert_is_Some. unfold metric_keys.
    intros [<-|[_ [<-|[_ [<-|[_ Hk]]]]]]; [set_solver..|].
    apply Ha0 in Hk as ->. set_solver.
Qed.

(** C10.  Whenever [analyze] returns a metrics dictionary, the keys
    [overshoot], [settling_time] and [steady_state_error] are in it and
    it has no key besides these and [rise_time]; [rise_time] can be
    missing (it is on the trace [slow_step]). *)
Theorem metrics_always_present self m :
  (analyze self).2 = Ok (Some m) →
  (is_Some (m !! "overshoot") ∧ is_Some (m !! "settling_time") ∧
   is_Some (m !! "steady_state_error") ∧
   ∀ k, is_Some (m !! k) → k ∈ metric_keys) ∧
  (∃ self0 m0, (analyze self0).2 = Ok (Some m0) ∧ m0 !! "rise_time" = None).
Proof.
  intros H. split.
  - by apply (compute_metrics_fields (analyze self).1), analyze_Some.
  - exists Traces.slow_step.
    destruct (is_metrics_inv (analyze Traces.slow_step).2) as [m0 E];
      [vm_compute; reflexivity|].
    exists m0. split; [done|].
    change (m0 !! "rise_time") with (metric_of (Ok (Some m0)) "rise_time").
    rewrite <- E. vm_compute. reflexivity.
Qed.

Lemma metrics_always_present_witness :
  ∃ m, (analyze Traces.up_step).2 = Ok (Some m) ∧
       is_Some (m !! "overshoot") ∧ is_Some (m !! "settling_time") ∧
       is_Some (m !! "steady_state_error").
Proof.
  destruct (is_metrics_inv (analyze Traces.up_step).2) as [m E];
    [vm_compute; reflexivity|].
  exists m. split; [done|].
  destruct (metrics_always_present Traces.up_step m E) as [(H1 & H2 & H3 & _) _].
  by split_and!.
Defined.

End Metrics.

(** ** The telemetry store *)

Section Store.
Import PIDTuningApp.

Implicit Types (self : t) (d : deque).

Lemma append_length d x :
  length (items (append d x)) =
  if maxlen d <? len (items d) + 1 then length (items d) else S (length (items d)).
Proof.
  unfold append, len; simpl. rewrite length_app; simpl.
  replace (Z.of_nat (length (items d) + 1)) with (Z.of_nat (length (items d)) + 1) by lia.
  destruct (_ <? _).
  - destruct (items d); simpl; [done|]. rewrite length_app; simpl. lia.
  - rewrite length_app; simpl. lia.
Qed.

Lemma append_length_eq d x N (n : nat) :
  maxlen d = N → length (items d) = n →
  length (items (append d x)) = if N <? Z.of_nat n + 1 then n else S n.
Proof. intros <- <-. apply append_length. Qed.

Lemma append_maxlen d x : maxlen (append d x) = maxlen d.
Proof. done. Qed.

(** Appending to a full deque evicts its oldest item. *)
Lemma append_full d x :
  len (items d) = maxlen d → items (append d x) = tail (items d ++ [x]).
Proof.
  intros H. unfold append, len in *; simpl. rewrite length_app; simpl.
  destruct (Z.ltb_spec (maxlen d) (Z.of_nat (length (items d) + 1))); [done | lia].
Qed.

Lemma append_room d x :
  len (items d) < maxlen d → items (append d x) = items d ++ [x].
Proof.
  intros H. unfold append, len in *; simpl. rewrite length_app; simpl.
  destruct (Z.ltb_spec (maxlen d) (Z.of_nat (length (items d) + 1))); [lia | done].
Qed.

Lemma series_ingest self m :
  series (ingest self m) = zip_with append (series self) (row m).
Proof. unfold ingest. simpl. by destruct (step_test_active self). Qed.

Lemma series_process_msg self m :
  series (process_msg self m) =
  match m with
  | Data d => zip_with append (series self) (row d)
  | _ => series self
  end.
Proof. destruct m; [apply series_ingest | done..]. Qed.

Lemma store_wf_alt self :
  store_wf self ↔
  ∃ n : nat, Z.of_nat n ≤ 864000 ∧
    Forall (λ d, maxlen d = 864000 ∧ length (items d) = n) (series self).
Proof.
  unfold store_wf. split.
  - intros H. exists (length (items (time_data self))).
    split.
    + apply Forall_cons_1 in H as [(_ & _ & H) _]. done.
    + eapply Forall_impl; [exact H|]. by intros d (? & ? & ?).
  - intros (n & Hn & H).
    assert (Ht : length (items (time_data self)) = n).
    { apply Forall_cons_1 in H as [(_ & H) _]. done. }
    eapply Forall_impl; [exact H|]. intros d (? & ?). unfold len. split_and!; [done|lia|lia].
Qed.

Lemma store_wf_ingest self m : store_wf self → store_wf (ingest self m).
Proof.
  rewrite !store_wf_alt. intros (n & Hn & H).
  exists (if 864000 <? Z.of_nat n + 1 then n else S n). split.
  { destruct (Z.ltb_spec 864000 (Z.of_nat n + 1)); lia. }
  rewrite series_ingest. unfold series in *. simpl.
  rewrite !Forall_cons, Forall_nil in H. rewrite !Forall_cons, Forall_nil.
  destruct_and!.
  split_and!; try done; by apply append_length_eq.
Qed.

Lemma store_wf_init : store_wf init.
Proof. unfold store_wf. simpl. repeat constructor; done. Qed.

Lemma store_wf_clear_plot self : store_wf self → store_wf (clear_plot self).
Proof.
  unfold store_wf, series. simpl. rewrite !Forall_cons, !Forall_nil.
  intros H. destruct_and!. split_and!; done.
Qed.

Lemma store_wf_process_msg self m : store_wf self → store_wf (process_msg self m).
Proof. destruct m; [apply store_wf_ingest | done..]. Qed.

Lemma store_wf_process_data self q : store_wf self → store_wf (process_data self q).
Proof.
  revert self. induction q as [|m q IH]; intros self H; [done|].
  simpl. by apply IH, store_wf_process_msg.
Qed.

Lemma store_wf_step self a : store_wf self → store_wf (step self a).
Proof.
  destruct a; [apply store_wf_process_data | apply store_wf_clear_plot | done].
Qed.

Lemma store_wf_run self acts : store_wf self → store_wf (run self acts).
Proof.
  revert self. induction acts as [|a acts IH]; intros self H; [done|].
  simpl. by apply IH, store_wf_step.
Qed.

(** A run of appends keeps the newest [maxlen] items, in order. *)
Lemma fold_append_items d xs :
  0 ≤ maxlen d → len (items d) ≤ maxlen d →
  maxlen (fold_left append xs d) = maxlen d ∧
  items (fold_left append xs d) =
    drop (Z.to_nat (len (items d ++ xs) - maxlen d)) (items d ++ xs).
Proof.
  revert d. induction xs as [|x xs IH]; intros d H0 Hlen.
  - simpl. split; [done|]. rewrite app_nil_r.
    by replace (Z.to_nat _) with 0%nat by lia.
  - cbn [fold_left].
    destruct (IH (append d x)) as [-> ->]; [done | |].
    { pose proof (append_length d x) as Hl. rewrite append_maxlen. unfold len in *.
      destruct (Z.ltb_spec (maxlen d) (Z.of_nat (length (items d)) + 1)); lia. }
    rewrite append_maxlen. split; [done|].
    destruct (decide (len (items d) = maxlen d)) as [Hfull|Hroom].
    + rewrite (append_full _ _ Hfull).
      destruct (items d) as [|y l] eqn:E; simpl.
      * rewrite <- Hfull. unfold len. by rewrite !drop_ge by (simpl; lia).
      * rewrite <- (assoc_L (++)). cbn [app].
        replace (Z.to_nat (len (y :: l ++ x :: xs) - maxlen d))
          with (S (Z.to_nat (len (l ++ x :: xs) - maxlen d))); [done|].
        rewrite <- Hfull. unfold len. simpl. rewrite length_app. simpl. lia.
    + rewrite append_room by lia. by rewrite <- (assoc_L (++)).
Qed.

Lemma zip_append_full (ds : list deque) (xs : list Q) :
  Forall (λ d, len (items d) = maxlen d) ds →
  items <$> zip_with append ds xs =
  zip_with (λ old x, tail (old ++ [x])) (items <$> ds) xs.
Proof.
  intros H. revert xs. induction H as [|d ds Hd _ IH]; intros [|x xs]; try done.
  cbn [zip_with]. rewrite !fmap_cons. cbn [zip_with].
  by rewrite IH, append_full.
Qed.

Lemma series_process_data self ds :
  series (process_data self (Data <$> ds)) =
  zip_with (λ d xs, fold_left append xs d) (series self) (columns ds).
Proof.
  revert self. induction ds as [|m ds IH]; intros self; [done|].
  rewrite fmap_cons. unfold process_data in *. cbn [fold_left process_msg].
  rewrite IH, series_ingest. reflexivity.
Qed.

(** C7.  After any sequence of queue drains and clears (so after each
    ingest) the eight series have one length, at most 864000; an ingest
    into a full store drops the oldest item of each series and appends the
    new one; and 864001 samples ingested into the new store leave samples
    2..864001 in each series, in ingestion order. *)
Theorem store_capacity_fifo :
  (∀ acts, let self := run init acts in
     (∀ d, d ∈ series self → length (items d) = length (items (time_data self))) ∧
     len (items (time_data self)) ≤ 864000) ∧
  (∀ acts m, let self := run init acts in
     len (items (time_data self)) = 864000 →
     items <$> series (ingest self m) =
       zip_with (λ old x, tail (old ++ [x])) (items <$> series self) (row m)) ∧
  (∀ ds, len ds = 864000 + 1 →
     items <$> series (process_data init (Data <$> ds)) = tail <$> columns ds).
Proof.
  split_and!.
  - intros acts self.
    pose proof (store_wf_run init acts store_wf_init) as Hwf. fold self in Hwf.
    unfold store_wf in Hwf. rewrite Forall_forall in Hwf. split.
    + intros d Hd. by apply Hwf.
    + apply (Hwf (time_data self)). unfold series. by left.
  - intros acts m self Hfull.
    pose proof (store_wf_run init acts store_wf_init) as Hwf. fold self in Hwf.
    rewrite series_ingest. apply zip_append_full.
    eapply Forall_impl; [exact Hwf|]. intros d (? & ? & ?). unfold len in *. lia.
  - intros ds Hlen. rewrite series_process_data. unfold columns, series, init. simpl.
    assert (Hcol : ∀ f : data_msg → Q,
               items (fold_left append (f <$> ds) (deque_new 864000)) = tail (f <$> ds)).
    { intros f.
      destruct (fold_append_items (deque_new 864000) (f <$> ds)) as [_ ->];
        [done | done |].
      simpl. unfold len in *. rewrite length_fmap.
      replace (Z.to_nat _) with 1%nat by lia. by destruct (f <$> ds). }
    by rewrite !Hcol.
Qed.

Lemma store_capacity_fifo_witness :
  let ds := replicate (Z.to_nat 864001) (mk_data 0 20 25 0 5 None None None) in
  len ds = 864000 + 1 ∧
  items <$> series (process_data init (Data <$> ds)) = tail <$> columns ds.
Proof.
  intros ds.
  assert (Hlen : len ds = 864000 + 1).
  { unfold len, ds. rewrite length_replicate. lia. }
  split; [exact Hlen|].
  exact (proj2 (proj2 store_capacity_fifo) ds Hlen).
Defined.

(** C8.  [clear_plot] empties the eight series and leaves the six
    extrema (and the analyzer) as they were; [clear_minmax] sets the six
    extrema to "N/A" and leaves the eight series (and the analyzer) as
    they were. *)
Theorem clear_frames self :
  (items <$> series (clear_plot self) = replicate 8 [] ∧
   extrema (clear_plot self) = extrema self ∧
   analyzer (clear_plot self) = analyzer self) ∧
  (extrema (clear_minmax self) = replicate 6 None ∧
   series (clear_minmax self) = series self ∧
   analyzer (clear_minmax self) = analyzer self).
Proof. done. Qed.

End Store.

(** ** Rounding to the display precision *)

Section Rounding.

Implicit Types (x y : Q) (n : Z) (d : nat).

(** The rounded value is within one half, and a tie goes to the even
    neighbour. *)
Lemma round_half_even_spec x :
  let n := round_half_even x in
  (inject_Z n - (1#2) <= x <= inject_Z n + (1#2))%Q ∧
  ((x == inject_Z n - (1#2))%Q ∨ (x == inject_Z n + (1#2))%Q → Z.even n = true).
Proof.
  unfold round_half_even.
  pose proof (Qfloor_le x) as Hlo. pose proof (Qlt_floor x) as Hhi.
  rewrite inject_Z_plus in Hhi. change (inject_Z 1) with 1%Q in Hhi.
  set (f := Qfloor x) in *. clearbody f.
  destruct (ltb (x - inject_Z f) (1#2)) eqn:E1.
  { apply ltb_lt in E1. split; [split; lra | intros [H|H]; lra]. }
  apply ltb_ge in E1.
  destruct (ltb (1#2) (x - inject_Z f)) eqn:E2.
  { apply ltb_lt in E2. rewrite inject_Z_plus. change (inject_Z 1) with 1%Q.
    split; [split; lra | intros [H|H]; lra]. }
  apply ltb_ge in E2.
  destruct (Z.even f) eqn:E3.
  { split; [split; lra | done]. }
  rewrite inject_Z_plus. change (inject_Z 1) with 1%Q.
  split; [split; lra|]. intros _.
  by rewrite Z.even_add, E3.
Qed.

Lemma round_half_even_mono x y :
  (x <= y)%Q → round_half_even x ≤ round_half_even y.
Proof.
  intros Hxy.
  destruct (round_half_even_spec x) as [[Hx1 Hx2] Hxe].
  destruct (round_half_even_spec y) as [[Hy1 Hy2] Hye].
  set (n := round_half_even x) in *. set (k := round_half_even y) in *.
  clearbody n k.
  destruct (Z_le_gt_dec n k) as [|Hgt]; [done|exfalso].
  assert (Hk : (inject_Z k + 1 <= inject_Z n)%Q).
  { change (inject_Z k + 1)%Q with (inject_Z k + inject_Z 1)%Q.
    rewrite <- inject_Z_plus, <- Zle_Qle. lia. }
  assert (Hn : Z.even n = true) by (apply Hxe; left; lra).
  assert (Hk' : Z.even k = true) by (apply Hye; right; lra).
  assert (n = k + 1) as ->.
  { apply Z.le_antisymm; [|lia]. rewrite Zle_Qle, inject_Z_plus.
    change (inject_Z 1) with 1%Q. lra. }
  rewrite Z.even_add, Hk' in Hn. done.
Qed.

Lemma round_half_even_proper x y :
  (x == y)%Q → round_half_even x = round_half_even y.
Proof.
  intros H. apply Z.le_antisymm; apply round_half_even_mono; lra.
Qed.



Lemma format_f_proper d x y : (x == y)%Q → format_f d x = format_f d y.
Proof.
  intros H. unfold format_f. f_equal. apply round_half_even_proper. by rewrite H.
Qed.



End Rounding.

(** ** The extrema tracker *)

Section Extrema.
Import PIDTuningApp.

Implicit Types (self : t) (d : nat) (l vs : list Q) (m v : Q).















Lemma tracked_nil self : zip_with (tracked []) trackers (extrema self) = extrema self.
Proof. done. Qed.





(** The spec's example: after the process values 5, 2, 9, 1 the
    displays read 1.00 and 9.00. *)
Lemma extrema_5_2_9_1 :
  let self' := run (clear_minmax init) Sessions.four_samples in
  pv_min self' = Some (100 # 100) ∧ pv_max self' = Some (900 # 100).
Proof. split; vm_compute; reflexivity. Qed.


End Extrema.

(** ** Where [analyze] does not keep to the specification *)

Section Defects.
Import StepResponseAnalyzer.

Implicit Types (self : t).

(** A step whose index [int(step_start_time * 10)] is at or past the end
    of the trace: the rise scan has nothing to visit, and [max] of the
    empty slice raises. *)
Lemma analyze_raises_past_end self i tm :
  trace_wf self → (10 ≤ length (time self))%nat →
  first_jump (sp self) i → time self !! i = Some tm →
  len (pv self) ≤ int (tm * 10) →
  (analyze self).2 = Raise ValueError.
Proof.
  intros Hwf Hlen Hfirst Htm Hpast.
  destruct (analyze_detected self i Hwf Hlen Hfirst) as (tm' & s & Htm' & Hs & ->).
  assert (tm' = tm) as -> by congruence.
  unfold compute_metrics. simpl.
  rewrite range_empty by done. simpl.
  rewrite (slice_from_past_end (pv self) _ Hpast). reflexivity.
Qed.

(** C1 (the code raises).  [late_step] is a well-formed trace of ten
    finite samples with a step at sample 5, recorded 12.5 s after boot;
    the index [int(12.5 * 10) = 125] is past its end and [analyze] raises
    ValueError.  On [negative_times] the index is [-45], before the start
    of the trace, and [analyze] raises IndexError. *)
Theorem analyze_raises :
  (trace_wf Traces.late_step ∧ len (pv Traces.late_step) = 10 ∧
   start_index (analyze Traces.late_step).1 = Some 125 ∧
   (analyze Traces.late_step).2 = Raise ValueError) ∧
  (trace_wf Traces.negative_times ∧
   start_index (analyze Traces.negative_times).1 = Some (-45) ∧
   (analyze Traces.negative_times).2 = Raise IndexError).
Proof.
  split; split_and!; try (repeat split; reflexivity); vm_compute; reflexivity.
Qed.

(** C3 (the code drops the rise time).  On [down_step] the scan starts at
    index 0 and finds both thresholds reached there, [analyze] returns
    metrics, and [rise_time] is not among them: index 0 counts as false
    in [if rise_start_idx and rise_end_idx]. *)
Theorem rise_time_lost_at_index_zero :
  trace_wf Traces.down_step ∧
  start_index (analyze Traces.down_step).1 = Some 0 ∧
  rise_indices (analyze Traces.down_step).1 = Ok (Some 0, Some 0) ∧
  is_metrics (analyze Traces.down_step).2 = true ∧
  metric_of (analyze Traces.down_step).2 "rise_time" = None.
Proof.
  split_and!; try (repeat split; reflexivity); vm_compute; reflexivity.
Qed.

(** C6 (no settling time is computed).  On [late_step] a step is detected
    and recorded, no sample lies after index 125, and yet [analyze]
    raises before the settling phase: there is no [settling_time], where
    the claim gives [time[last] − step_start_time]. *)
Theorem settling_time_not_computed :
  (∃ start tl, step_start_time (analyze Traces.late_step).1 = Some start ∧
               getitem (time Traces.late_step) (-1) = Ok tl ∧
               (tl - start == 0.4)%Q) ∧
  slice (pv Traces.late_step) (start_index (analyze Traces.late_step).1) None = [] ∧
  is_metrics (analyze Traces.late_step).2 = false ∧
  metric_of (analyze Traces.late_step).2 "settling_time" = None.
Proof.
  split_and!; [|vm_compute; reflexivity..].
  do 2 eexists. split_and!; [vm_compute; reflexivity..].
Qed.

End Defects.

(** ** The rise and settling scans, when [analyze] returns metrics *)

Section Scans.
Import StepResponseAnalyzer.

Implicit Types (self : t) (m : metrics) (idxs : list Z) (pvs : list Q).

Lemma first_in_here (P : Z → Prop) i idxs : P i → first_in P (i :: idxs) i.
Proof. intros H. exists [], idxs. split_and!; [done | done | set_solver]. Qed.

Lemma first_in_later (P : Z → Prop) i j idxs :
  ¬ P i → first_in P idxs j → first_in P (i :: idxs) j.
Proof.
  intros Hi (pre & post & -> & Hj & Hpre). exists (i :: pre), post.
  split_and!; [done | done |].
  intros k [->|Hk]%elem_of_cons; [done | by apply Hpre].
Qed.

Lemma none_in_cons (P : Z → Prop) i idxs :
  ¬ P i → (∀ k, k ∈ idxs → ¬ P k) → ∀ k, k ∈ i :: idxs → ¬ P k.
Proof. intros Hi H k [->|Hk]%elem_of_cons; [done | by apply H]. Qed.

Lemma reaches_iff pvs r i x :
  getitem pvs i = Ok x → reaches pvs r i ↔ leb r x = true.
Proof.
  intros E. rewrite leb_le. split.
  - intros (x' & E' & H). congruence.
  - intros H. by exists x.
Qed.

(** What the rise loop returns, from any value of [rise_start_idx]:
    [scanned] is the part of [idxs] it visited. *)
Lemma rise_scan_spec pvs r10 r90 idxs acc rs re :
  rise_scan pvs r10 r90 idxs acc = Ok (rs, re) →
  ∃ scanned,
    match re with
    | Some j => ∃ pre post, idxs = pre ++ j :: post ∧ scanned = pre ++ [j] ∧
                            reaches pvs r90 j ∧ ∀ k, k ∈ pre → ¬ reaches pvs r90 k
    | None => scanned = idxs ∧ ∀ k, k ∈ idxs → ¬ reaches pvs r90 k
    end ∧
    match acc, rs with
    | Some a, _ => rs = Some a
    | None, Some i => first_in (reaches pvs r10) scanned i
    | None, None => ∀ k, k ∈ scanned → ¬ reaches pvs r10 k
    end.
Proof.
  revert acc. induction idxs as [|i idxs IH]; intros acc H.
  - injection H as <- <-. exists []. split; [split; [done | set_solver]|].
    destruct acc; [done | set_solver].
  - cbn [rise_scan] in H. bind_ok H. bind_ok H.
    rename a into acc', a0 into x.
    pose proof (reaches_iff pvs r90 i x E0) as H90.
    pose proof (reaches_iff pvs r10 i x E0) as H10.
    assert (Hacc : acc' = match acc with
                          | Some a => Some a
                          | None => if leb r10 x then Some i else None
                          end).
    { destruct acc; [congruence|]. simpl in E. by injection E. }
    clear E. destruct (leb r90 x) eqn:E90.
    + injection H as <- <-. exists [i]. split.
      * exists [], idxs. split_and!; [done | done | by apply H90 | set_solver].
      * subst acc'. destruct acc as [a|]; [done|].
        destruct (leb r10 x).
        -- apply first_in_here. by apply H10.
        -- apply none_in_cons; [|set_solver]. rewrite H10. done.
    + destruct (IH _ H) as (scanned & Hre & Hrs). exists (i :: scanned).
      assert (Hn90 : ¬ reaches pvs r90 i) by (rewrite H90; done).
      split.
      * destruct re as [j|].
        -- destruct Hre as (pre & post & -> & -> & Hj & Hpre).
           exists (i :: pre), post. split_and!; [done | done | done |].
           by apply none_in_cons.
        -- destruct Hre as [-> Hno]. split; [done | by apply none_in_cons].
      * subst acc'. destruct acc as [a|]; [done|].
        destruct (leb r10 x).
        -- subst rs. apply first_in_here. by apply H10.
        -- assert (Hn10 : ¬ reaches pvs r10 i) by (rewrite H10; done).
           destruct rs; [by apply first_in_later | by apply none_in_cons].
Qed.

(** What the settling loop returns. *)
Lemma settle_scan_spec self start band idxs r :
  settle_scan self start band idxs = Ok r →
  match r with
  | Some v => ∃ i tm, first_in (outside self band) idxs i ∧
                      getitem (time self) i = Ok tm ∧ v = (tm - start)%Q
  | None => ∀ k, k ∈ idxs → ¬ outside self band k
  end.
Proof.
  revert r. induction idxs as [|i idxs IH]; intros r H.
  - injection H as <-. set_solver.
  - cbn [settle_scan] in H. bind_ok H. rename a into x.
    assert (Hout : outside self band i ↔ ltb band (Qabs (x - final_value self)) = true).
    { rewrite ltb_lt. split; [intros (x' & E' & H'); congruence | intros H'; by exists x]. }
    destruct (ltb band _) eqn:Eb.
    + bind_ok H. injection H as <-. exists i, a.
      split_and!; [apply first_in_here; by apply Hout | done | done].
    + assert (Hin : ¬ outside self band i) by (rewrite Hout; done).
      specialize (IH _ H). destruct r as [v|].
      * destruct IH as (j & tm & Hj & Htm & ->). exists j, tm.
        split_and!; [by apply first_in_later | done | done].
      * by apply none_in_cons.
Qed.

Lemma elem_of_range lo hi k : k ∈ range lo hi ↔ lo ≤ k < hi.
Proof.
  unfold range. rewrite list_elem_of_fmap. split.
  - intros (n & -> & Hn). apply elem_of_seq in Hn. lia.
  - intros H. exists (Z.to_nat (k - lo)). split; [lia|]. apply elem_of_seq. lia.
Qed.

Lemma elem_of_range_down hi lo k : k ∈ range_down hi lo ↔ lo < k ≤ hi.
Proof.
  unfold range_down. rewrite list_elem_of_fmap. split.
  - intros (n & -> & Hn). apply elem_of_seq in Hn. lia.
  - intros H. exists (Z.to_nat (hi - k)). split; [lia|]. apply elem_of_seq. lia.
Qed.

(** The phases of [compute_metrics], one by one. *)
Lemma compute_metrics_inv self m :
  compute_metrics self = Ok m →
  ∃ start idx m1 max_pv st settle,
    step_start_time self = Some start ∧
    rise_indices self = Ok idx ∧
    (if truthy idx.1 && truthy idx.2 then
       te ← getitem (time self) (default 0 idx.2);
       ts ← getitem (time self) (default 0 idx.1);
       Ok (<["rise_time" := Finite (te - ts)]> (∅ : metrics))
     else Ok ∅) = Ok m1 ∧
    max_seq (slice (pv self) (Some (int (start * 10))) None) = Ok max_pv ∧
    settle_scan self start (0.02 * step_amplitude self)
      (range_down (len (pv self) - 1) (int (start * 10))) = Ok st ∧
    match st with
    | Some v => settle = v
    | None => ∃ tl, getitem (time self) (-1) = Ok tl ∧ settle = (tl - start)%Q
    end ∧
    m = <["steady_state_error" :=
            Finite (final_value self - np_mean (slice (pv self) (Some (-20)) None))]>
          (<["settling_time" := Finite settle]>
             (<["overshoot" :=
                  np_scale (np_truediv (max_pv - final_value self) (step_amplitude self)) 100]>
                m1)).
Proof.
  intros H. unfold compute_metrics in H. unfold rise_indices.
  destruct (step_start_time self) as [start|]; [|done].
  change (mbind ?k (Ok start)) with (k start) in *. cbv beta in *.
  bind_ok H. rename a into idx. bind_ok H. rename a into m1.
  bind_ok H. rename a into max_pv. bind_ok H. rename a into st.
  bind_ok H. injection H as <-.
  destruct st as [v|].
  - injection E3 as <-. exists start, idx, m1, max_pv, (Some v), v. by split_and!.
  - bind_ok E3. injection E3 as <-.
    exists start, idx, m1, max_pv, None, (a0 - start)%Q.
    split_and!; try done. by exists a0.
Qed.

(** Rise time, as the code computes it: present when both indices were
    found and neither is 0, and then [time[rise_end_idx] −
    time[rise_start_idx]]. *)
Lemma rise_time_spec self m :
  compute_metrics self = Ok m →
  ∃ rs re, rise_indices self = Ok (rs, re) ∧
    match rs, re with
    | Some i, Some j =>
      if (i =? 0) || (j =? 0) then m !! "rise_time" = None
      else ∃ ts te, getitem (time self) i = Ok ts ∧ getitem (time self) j = Ok te ∧
                    m !! "rise_time" = Some (Finite (te - ts))
    | _, _ => m !! "rise_time" = None
    end.
Proof.
  intros H.
  destruct (compute_metrics_inv self m H)
    as (start & [rs re] & m1 & max_pv & st & settle & _ & Hidx & Hm1 & _ & _ & _ & ->).
  exists rs, re. split; [done|].
  rewrite !lookup_insert_ne by done. simpl in Hm1.
  destruct rs as [i|], re as [j|]; simpl in Hm1;
    try (injection Hm1 as <-; done);
    try (rewrite andb_false_r in Hm1; injection Hm1 as <-; done).
  destruct (i =? 0); [injection Hm1 as <-; done|].
  destruct (j =? 0); [injection Hm1 as <-; done|].
  simpl in *. bind_ok Hm1. bind_ok Hm1. injection Hm1 as <-.
  exists a0, a. by rewrite lookup_insert_eq.
Qed.

(** Settling time, as the code computes it: the scan runs backward over
    the indices after [int(step_start_time * 10)]; the first sample
    outside the band gives [time[i] − step_start_time], and when there is
    none the result is [time[-1] − step_start_time]. *)
Lemma settling_time_spec self m :
  compute_metrics self = Ok m →
  ∃ start, step_start_time self = Some start ∧
    let idxs := range_down (len (pv self) - 1) (int (start * 10)) in
    let band := (0.02 * step_amplitude self)%Q in
    (∃ i tm, first_in (outside self band) idxs i ∧
             getitem (time self) i = Ok tm ∧
             m !! "settling_time" = Some (Finite (tm - start)))
    ∨
    ((∀ k, k ∈ idxs → ¬ outside self band k) ∧
     ∃ tl, getitem (time self) (-1) = Ok tl ∧
           m !! "settling_time" = Some (Finite (tl - start))).
Proof.
  intros H.
  destruct (compute_metrics_inv self m H)
    as (start & idx & m1 & max_pv & st & settle & Hstart & _ & _ & _ & Hst & Hsettle & ->).
  exists start. split; [done|]. simpl.
  rewrite lookup_insert_ne, lookup_insert_eq by done.
  apply settle_scan_spec in Hst. destruct st as [v|].
  - left. destruct Hst as (i & tm & Hi & Htm & ->). subst settle. by exists i, tm.
  - right. split; [done|]. destruct Hsettle as (tl & Htl & ->). by exists tl.
Qed.

End Scans.

(** ** Where [analyze] does return metrics *)

Section Totality.
Import StepResponseAnalyzer.

Implicit Types (self : t) (idxs : list Z) (pvs : list Q).

Lemma rise_scan_ok pvs r10 r90 idxs acc :
  (∀ k, k ∈ idxs → in_range pvs k) →
  ∃ rs re, rise_scan pvs r10 r90 idxs acc = Ok (rs, re) ∧
           (∀ i, rs = Some i → acc = Some i ∨ i ∈ idxs) ∧
           (∀ j, re = Some j → j ∈ idxs).
Proof.
  revert acc. induction idxs as [|i idxs IH]; intros acc Hin.
  - exists acc, None. split_and!; [done | by left | done].
  - destruct (getitem_is_Ok pvs i) as [x Hx]; [apply Hin; by left|].
    cbn [rise_scan]. rewrite Hx.
    set (acc' := match acc with
                 | Some a => Some a
                 | None => if leb r10 x then Some i else None
                 end).
    assert (Hacc : (match acc with
                    | None => Ok x ≫= λ x, Ok (if leb r10 x then Some i else None)
                    | Some _ => Ok acc
                    end) = Ok acc') by (by destruct acc).
    rewrite Hacc, !outcome_bind_ok.
    assert (Hacc' : ∀ i', acc' = Some i' → acc = Some i' ∨ i' = i).
    { intros i'. unfold acc'. destruct acc; [by left|]. destruct (leb r10 x); [|done].
      intros [= <-]. by right. }
    destruct (leb r90 x).
    + exists acc', (Some i). split_and!; [done | | intros j [= <-]; by left].
      intros i' [?| ->]%Hacc'; [by left | right; by left].
    + destruct (IH acc') as (rs & re & -> & Hrs & Hre).
      { intros k Hk. apply Hin. by right. }
      exists rs, re. split_and!; [done | | intros j Hj; right; by apply Hre].
      intros i' [[?| ->]%Hacc'|?]%Hrs; [by left | right; by left | right; by right].
Qed.

Lemma settle_scan_ok self start band idxs :
  length (time self) = length (pv self) →
  (∀ k, k ∈ idxs → in_range (pv self) k) →
  ∃ r, settle_scan self start band idxs = Ok r.
Proof.
  intros Hlen Hin. induction idxs as [|i idxs IH]; [by exists None|].
  assert (Hi : in_range (pv self) i) by (apply Hin; by left).
  destruct (getitem_is_Ok (pv self) i Hi) as [x Hx].
  destruct (getitem_is_Ok (time self) i) as [tm Htm].
  { unfold in_range, len in *. by rewrite Hlen. }
  cbn [settle_scan]. rewrite Hx, outcome_bind_ok.
  destruct (ltb band _).
  - rewrite Htm. by eexists.
  - apply IH. intros k Hk. apply Hin. by right.
Qed.

(** On a recorded trace with a step whose index
    [int(step_start_time * 10)] falls inside the trace, [analyze]
    returns metrics. *)
Lemma analyze_returns_metrics self i tm :
  trace_wf self → (10 ≤ length (time self))%nat →
  first_jump (sp self) i → time self !! i = Some tm →
  in_range (pv self) (int (tm * 10)) →
  is_metrics (analyze self).2 = true.
Proof.
  intros Hwf Hlen Hfirst Htm Hs.
  destruct (analyze_detected self i Hwf Hlen Hfirst) as (tm' & s & Htm' & Hsp & ->).
  assert (tm' = tm) as -> by congruence.
  destruct Hwf as (Hpv & _).
  assert (Hlen' : len (time self) = len (pv self)) by (unfold len; lia).
  cut (∃ m, compute_metrics (detected self i tm s) = Ok m).
  { intros [m ->]. done. }
  unfold compute_metrics. cbn [step_start_time pv time detected].
  rewrite outcome_bind_ok.
  destruct (rise_scan_ok (pv self)
              (initial_value (detected self i tm s) + 0.1 * step_amplitude (detected self i tm s))%Q
              (initial_value (detected self i tm s) + 0.9 * step_amplitude (detected self i tm s))%Q
              (range (int (tm * 10)) (len (pv self))) None)
    as (rs & re & -> & Hrs & Hre).
  { intros k Hk%elem_of_range. unfold in_range in *. lia. }
  rewrite outcome_bind_ok. cbn [fst snd].
  assert (Hrise : ∃ m1 : metrics,
             (if truthy rs && truthy re then
                te ← getitem (time self) (default 0 re);
                ts ← getitem (time self) (default 0 rs);
                Ok (<["rise_time" := Finite (te - ts)]> (∅ : metrics))
              else Ok ∅) = Ok m1).
  { destruct (truthy rs && truthy re) eqn:Et; [|by eexists].
    apply andb_prop in Et as [Hts Hte].
    destruct rs as [i'|]; [|done]. destruct re as [j'|]; [|done].
    destruct (Hrs i' eq_refl) as [?|Hi'%elem_of_range]; [done|].
    specialize (Hre j' eq_refl). apply elem_of_range in Hre. simpl.
    destruct (getitem_is_Ok (time self) j') as [te ->].
    { unfold in_range in *. lia. }
    destruct (getitem_is_Ok (time self) i') as [ts ->].
    { unfold in_range in *. lia. }
    by eexists. }
  destruct Hrise as [m1 ->]. rewrite outcome_bind_ok.
  destruct (slice (pv self) (Some (int (tm * 10))) None) as [|x xs] eqn:Eslice.
  { apply (f_equal length) in Eslice. rewrite slice_from_length in Eslice.
    unfold in_range in Hs. simpl in Eslice.
    destruct (Z.ltb_spec (int (tm * 10)) 0); lia. }
  cbn [max_seq]. rewrite outcome_bind_ok.
  destruct (settle_scan_ok (detected self i tm s) tm
              (0.02 * step_amplitude (detected self i tm s))%Q
              (range_down (len (pv self) - 1) (int (tm * 10)))) as [st ->].
  { simpl. lia. }
  { intros k Hk%elem_of_range_down. unfold in_range in *. simpl. lia. }
  rewrite outcome_bind_ok.
  destruct st as [v|]; [by eexists|].
  destruct (getitem_is_Ok (time self) (-1)) as [tl ->]; [|by eexists].
  unfold len. lia.
Qed.

(** Every analyzer the application can hold has a well-formed trace. *)
Lemma trace_wf_init : trace_wf init.
Proof. done. Qed.

Lemma trace_wf_reset self : trace_wf (reset self).
Proof. done. Qed.

Lemma trace_wf_add_data self tm p s o :
  trace_wf self → trace_wf (add_data self tm p s o).
Proof.
  intros (H1 & H2 & H3). unfold trace_wf, add_data; simpl.
  rewrite !length_app. simpl. lia.
Qed.

Lemma trace_wf_run acts :
  trace_wf (PIDTuningApp.analyzer (PIDTuningApp.run PIDTuningApp.init acts)).
Proof.
  unfold PIDTuningApp.run.
  assert (H : trace_wf (PIDTuningApp.analyzer PIDTuningApp.init)) by done.
  revert H. generalize PIDTuningApp.init as app.
  induction acts as [|a acts IH]; intros app H; [done|].
  cbn [fold_left]. apply IH. destruct a as [q| |]; [|done|done].
  cbn [PIDTuningApp.step]. unfold PIDTuningApp.process_data.
  revert app H. induction q as [|m q IHq]; intros app H; [done|].
  cbn [fold_left]. apply IHq. destruct m as [d| | | |]; try done.
  cbn [PIDTuningApp.process_msg]. unfold PIDTuningApp.ingest.
  destruct (PIDTuningApp.step_test_active app) eqn:E; simpl; rewrite ?E; simpl; [|done].
  by apply trace_wf_add_data.
Qed.

(** The window averaged for [initial_value] is never empty. *)
Lemma mean_window_nonempty pvs i :
  (1 ≤ i ≤ length pvs)%nat → window_before pvs i ≠ [].
Proof.
  intros H Hnil. apply (f_equal length) in Hnil.
  rewrite window_before_length in Hnil by lia. simpl in Hnil. lia.
Qed.

End Totality.

(** ** More on the analyzer: what the metric formulas imply *)

Section AnalyzerMore.
Import StepResponseAnalyzer More.

Implicit Types (self : t) (m : metrics) (l : list Q).

Lemma analyze_same_trace self : same_trace self (analyze self).1.
Proof.
  unfold analyze. destruct (len (time self) <? 10); [done|].
  pose proof (find_step_trace self (range 1 (len (sp self)))) as H.
  destruct (find_step self _) as [self' [[|]|e]]; done.
Qed.

(** A call that returned metrics went through a detected step. *)
Lemma analyze_Some_detected self m :
  trace_wf self → (analyze self).2 = Ok (Some m) →
  ∃ i tm s, first_jump (sp self) i ∧ time self !! i = Some tm ∧ sp self !! i = Some s ∧
            (analyze self).1 = detected self i tm s ∧
            compute_metrics (detected self i tm s) = Ok m.
Proof.
  intros Hwf H. pose proof (analyze_Some self m H) as Hm. revert H Hm. unfold analyze.
  destruct (len (time self) <? 10); [done|].
  destruct (find_step_range self Hwf)
    as [[_ ->] | (i & tm & s & Hfirst & Htm & Hs & ->)]; [done|].
  simpl. intros _ Hm. by exists i, tm, s.
Qed.





Lemma getitem_last l x : getitem l (-1) = Ok x ↔ last l = Some x.
Proof.
  rewrite getitem_Ok, last_lookup. unfold position, len. simpl.
  replace (Z.to_nat (-1 + Z.of_nat (length l))) with (Nat.pred (length l)) by lia.
  split; [by intros [_ ?]|]. intros H. split; [|done].
  apply lookup_lt_Some in H. lia.
Qed.

Lemma getitem_end l x : getitem l (len l - 1) = Ok x ↔ last l = Some x.
Proof.
  rewrite getitem_Ok, last_lookup. unfold position, len.
  destruct (Z.ltb_spec (Z.of_nat (length l) - 1) 0) as [H0|H0].
  - assert (length l = 0%nat) as Hnil by lia. rewrite Hnil. simpl.
    destruct l; [|done]. split; [intros [? _]; simpl in *; lia | done].
  - replace (Z.to_nat (Z.of_nat (length l) - 1)) with (Nat.pred (length l)) by lia.
    split; [by intros [_ ?]|]. intros H. split; [|done]. lia.
Qed.

Lemma range_down_cons hi lo : lo < hi → range_down hi lo = hi :: range_down (hi - 1) lo.
Proof.
  intros H. unfold range_down.
  replace (Z.to_nat (hi - lo)) with (S (Z.to_nat (hi - 1 - lo))) by lia.
  cbn [seq]. rewrite fmap_cons, <- fmap_S_seq, <- list_fmap_compose. f_equal; [lia|].
  apply list_fmap_ext. intros _ k _. simpl. lia.
Qed.

Lemma settle_scan_negative_band self start band i rest r :
  (band < 0)%Q → settle_scan self start band (i :: rest) = Ok r →
  ∃ tm, getitem (time self) i = Ok tm ∧ r = Some (tm - start)%Q.
Proof.
  intros Hband H. cbn [settle_scan] in H. bind_ok H.
  assert (ltb band (Qabs (a - final_value self)) = true) as Hout.
  { apply ltb_lt. pose proof (Qabs_nonneg (a - final_value self)). lra. }
  rewrite Hout in H. bind_ok H. injection H as <-. by eexists.
Qed.

(** X2.  For a downward step the settling band [0.02 * step_amplitude] is
    negative, so the very first sample the backward scan looks at counts
    as outside: whenever metrics are returned, [settling_time] is the
    last time stamp minus the step time, whatever the response did. *)
Theorem settling_time_downward_step self m :
  trace_wf self → (analyze self).2 = Ok (Some m) →
  (step_amplitude (analyze self).1 < 0)%Q →
  ∃ start tl, step_start_time (analyze self).1 = Some start ∧
              last (time self) = Some tl ∧
              m !! "settling_time" = Some (Finite (tl - start)).
Proof.
  intros Hwf H Hamp. apply analyze_Some in H.
  destruct (analyze_same_trace self) as (Ht & Hp & _).
  set (a := (analyze self).1) in *. clearbody a.
  destruct (compute_metrics_inv a m H)
    as (start & idx & m1 & max_pv & st & settle & Hstart & _ & _ & _ & Hst & Hsettle & ->).
  rewrite lookup_insert_ne, lookup_insert_eq by done.
  destruct (Z_lt_le_dec (int (start * 10)) (len (pv a) - 1)) as [Hlt|Hge].
  - rewrite (range_down_cons _ _ Hlt) in Hst.
    apply settle_scan_negative_band in Hst as (tm & Htm & ->); [|lra].
    subst settle. exists start, tm. split_and!; [done | | done].
    apply getitem_end. rewrite Ht in Htm. rewrite Hp in Htm.
    destruct Hwf as (Hpv & _). unfold len in *. by rewrite <- Hpv.
  - rewrite range_down_empty in Hst by done. injection Hst as <-.
    destruct Hsettle as (tl & Htl & ->). exists start, tl.
    split_and!; [done | | done]. apply getitem_last. by rewrite <- Ht.
Qed.

Lemma settling_time_downward_step_witness :
  trace_wf Traces.down_step ∧
  ∃ m start tl, (analyze Traces.down_step).2 = Ok (Some m) ∧
                step_start_time (analyze Traces.down_step).1 = Some start ∧
                last (time Traces.down_step) = Some tl ∧
                m !! "settling_time" = Some (Finite (tl - start)).
Proof.
  assert (Hwf : trace_wf Traces.down_step) by (repeat split; reflexivity).
  split; [done|].
  destruct (is_metrics_inv (analyze Traces.down_step).2) as [m E];
    [vm_compute; reflexivity|].
  destruct (settling_time_downward_step Traces.down_step m Hwf E)
    as (start & tl & H1 & H2 & H3); [vm_compute; reflexivity|].
  by exists m, start, tl.
Defined.

End AnalyzerMore.

Section MetricFormulas.
Import StepResponseAnalyzer More.

Implicit Types (self : t) (m : metrics) (l : list Q).

(** X3.  A step whose measured amplitude is zero does not stop the analysis:
    the division is numpy's, so [overshoot] comes out as nan or as an
    infinity and metrics are returned. *)
Theorem zero_amplitude_no_exception self i tm s :
  trace_wf self → (10 ≤ length (time self))%nat →
  first_jump (sp self) i → time self !! i = Some tm → sp self !! i = Some s →
  in_range (pv self) (int (tm * 10)) →
  (s == np_mean (window_before (pv self) i))%Q →
  ∃ m, (analyze self).2 = Ok (Some m) ∧
       (m !! "overshoot" = Some NaN ∨ ∃ neg, m !! "overshoot" = Some (Inf neg)).
Proof.
  intros Hwf Hlen Hfirst Htm Hs Hin Hzero.
  destruct (is_metrics_inv _ (analyze_returns_metrics self i tm Hwf Hlen Hfirst Htm Hin))
    as [m Hm].
  exists m. split; [done|].
  destruct (analyze_Some_detected self m Hwf Hm) as (i' & tm' & s' & Hf' & Htm' & Hs' & _ & Hc).
  rewrite <- (first_jump_unique _ _ _ Hfirst Hf') in *.
  assert (s' = s) as -> by congruence.
  destruct (compute_metrics_inv _ m Hc)
    as (start & idx & m1 & max_pv & st & settle & _ & _ & _ & _ & _ & _ & ->).
  rewrite lookup_insert_ne, lookup_insert_ne, lookup_insert_eq by done.
  unfold np_truediv. cbn [step_amplitude detected].
  assert (Qeq_bool (s - np_mean (window_before (pv self) i)) 0 = true) as ->.
  { apply Qeq_bool_iff. lra. }
  destruct (Qeq_bool _ 0); simpl; [by left | right; by eexists].
Qed.

Lemma zero_amplitude_no_exception_witness :
  trace_wf flat_step ∧
  ∃ m, (analyze flat_step).2 = Ok (Some m) ∧
       (m !! "overshoot" = Some NaN ∨ ∃ neg, m !! "overshoot" = Some (Inf neg)).
Proof.
  assert (Hwf : trace_wf flat_step) by (repeat split; reflexivity).
  split; [done|].
  apply (zero_amplitude_no_exception flat_step 1 0.125 10 Hwf).
  - simpl. lia.
  - apply first_jump_check; vm_compute; reflexivity.
  - reflexivity.
  - reflexivity.
  - unfold in_range. split; vm_compute; [discriminate | reflexivity].
  - vm_compute. reflexivity.
Defined.

Lemma lookup_range lo hi (j : nat) x :
  range lo hi !! j = Some x → x = lo + Z.of_nat j.
Proof.
  unfold range. rewrite list_lookup_fmap. intros H.
  destruct (seq 0 _ !! j) as [k|] eqn:E; [|done].
  apply lookup_seq in E as [-> _]. simpl in H. by injection H as <-.
Qed.

(** In a forward range everything before an element is smaller. *)
Lemma range_split lo hi pre b post :
  range lo hi = pre ++ b :: post → lo ≤ b ∧ ∀ k, k ∈ pre → lo ≤ k < b.
Proof.
  intros E.
  assert (Hb : b = lo + Z.of_nat (length pre)).
  { apply (lookup_range lo hi). rewrite E. by rewrite list_lookup_middle. }
  split; [lia|]. intros k [j Hj]%list_elem_of_lookup.
  pose proof (lookup_lt_Some _ _ _ Hj) as Hlt.
  assert (k = lo + Z.of_nat j); [|lia].
  apply (lookup_range lo hi). rewrite E. by rewrite lookup_app_l.
Qed.

Lemma int_nonneg x : (0 <= x)%Q → 0 ≤ int x.
Proof.
  unfold int, Qle. simpl. intros H. apply Z.quot_pos; lia.
Qed.

Lemma nondecreasing_cons x l :
  nondecreasing l → (∀ y, y ∈ l → (x <= y)%Q) → nondecreasing (x :: l).
Proof.
  intros Hl Hx a b u v Hab Hu Hv.
  destruct a as [|a], b as [|b]; simpl in *.
  - assert (u = v) as -> by congruence. apply Qle_refl.
  - injection Hu as <-. apply Hx. by eapply list_elem_of_lookup_2.
  - lia.
  - apply (Hl a b); [lia | done | done].
Qed.

(** Deciding [nondecreasing] and non-negativity by evaluation. *)
Lemma nondecreasing_check l : nondecreasingb l = true → nondecreasing l.
Proof.
  induction l as [|x l IH]; [by intros _ [|?] ? ? ? ? ?|].
  destruct l as [|y l].
  - intros _. apply nondecreasing_cons; [by intros [|?] ? ? ? ? ? | set_solver].
  - cbn [nondecreasingb]. intros [Hxy Hl]%andb_prop. apply leb_le in Hxy.
    specialize (IH Hl). apply nondecreasing_cons; [done|].
    intros z [k Hk]%list_elem_of_lookup.
    pose proof (IH 0%nat k y z ltac:(lia) eq_refl Hk). lra.
Qed.

Lemma nonneg_check l :
  forallb (leb 0) l = true → ∀ x, x ∈ l → (0 <= x)%Q.
Proof.
  rewrite forallb_forall. intros H x Hx. apply leb_le, H. by apply list_elem_of_In.
Qed.

(** X4.  On a trace whose time stamps are non-negative and never go back, a
    reported rise time is never negative. *)
Theorem rise_time_nonnegative self m v :
  trace_wf self → nondecreasing (time self) →
  (∀ x, x ∈ time self → (0 <= x)%Q) →
  (analyze self).2 = Ok (Some m) →
  m !! "rise_time" = Some (Finite v) → (0 <= v)%Q.
Proof.
  intros Hwf Hsorted Hpos Hm Hv.
  destruct (analyze_Some_detected self m Hwf Hm) as (i & tm & s & _ & Htm & _ & _ & Hc).
  assert (Hs0 : 0 ≤ int (tm * 10)).
  { apply int_nonneg. apply list_elem_of_lookup_2 in Htm. apply Hpos in Htm. lra. }
  destruct (rise_time_spec _ m Hc) as (rs & re & Hidx & Hrise).
  destruct rs as [a|]; [|congruence]. destruct re as [b|]; [|congruence].
  destruct ((a =? 0) || (b =? 0)); [congruence|].
  destruct Hrise as (ts & te & Hts & Hte & Hv'). rewrite Hv' in Hv. injection Hv as <-.
  unfold rise_indices in Hidx. cbn [step_start_time detected pv] in Hidx.
  rewrite outcome_bind_ok in Hidx.
  apply rise_scan_spec in Hidx as (scanned & (pre & post & Hrange & -> & _) & Hfirst).
  destruct Hfirst as (pre' & post' & Hsc & _).
  apply range_split in Hrange as [Hb Hpre].
  assert (Hab : int (tm * 10) ≤ a ≤ b).
  { assert (Ha : a ∈ pre ++ [b]).
    { rewrite Hsc. apply elem_of_app. right. by left. }
    apply elem_of_app in Ha as [Ha%Hpre | ->%list_elem_of_singleton]; lia. }
  cbn [time detected] in Hts, Hte.
  apply getitem_Ok in Hts as [_ Hts]. apply getitem_Ok in Hte as [_ Hte].
  unfold position in *.
  destruct (Z.ltb_spec a 0); [lia|]. destruct (Z.ltb_spec b 0); [lia|].
  pose proof (Hsorted (Z.to_nat a) (Z.to_nat b) ts te ltac:(lia) Hts Hte). lra.
Qed.

Lemma rise_time_nonnegative_witness :
  trace_wf Traces.up_step ∧
  ∃ v, metric_of (analyze Traces.up_step).2 "rise_time" = Some (Finite v) ∧ (0 <= v)%Q.
Proof.
  assert (Hwf : trace_wf Traces.up_step) by (repeat split; reflexivity).
  split; [done|].
  destruct (is_metrics_inv (analyze Traces.up_step).2) as [m E];
    [vm_compute; reflexivity|].
  assert (Hr : ∃ v, metric_of (analyze Traces.up_step).2 "rise_time" = Some (Finite v)).
  { eexists. vm_compute. reflexivity. }
  destruct Hr as [v Hv]. exists v. split; [done|].
  rewrite E in Hv. simpl in Hv.
  apply (rise_time_nonnegative Traces.up_step m v Hwf); [| |done|done].
  - apply nondecreasing_check. vm_compute. reflexivity.
  - apply nonneg_check. vm_compute. reflexivity.
Defined.

Lemma fold_max_spec l x :
  let mx := fold_left Py.max l x in
  mx ∈ x :: l ∧ ∀ y, y ∈ x :: l → (y <= mx)%Q.
Proof.
  revert x. induction l as [|z l IH]; intros x; simpl.
  - split; [by left|]. intros y ->%list_elem_of_singleton. apply Qle_refl.
  - destruct (IH (Py.max x z)) as [Hin Hle]. split.
    + apply elem_of_cons in Hin as [->|Hin]; [|right; by right].
      unfold Py.max. destruct (ltb x z); [right; by left | by left].
    + intros y Hy.
      assert (Hx : (x <= Py.max x z)%Q ∧ (z <= Py.max x z)%Q).
      { unfold Py.max. destruct (ltb x z) eqn:E.
        - apply ltb_lt in E. lra.
        - apply ltb_ge in E. lra. }
      pose proof (Hle (Py.max x z) ltac:(by left)).
      apply elem_of_cons in Hy as [->|[->|Hy]%elem_of_cons]; [lra | lra |].
      apply Hle. by right.
Qed.

Lemma max_seq_spec l mx :
  max_seq l = Ok mx → mx ∈ l ∧ ∀ y, y ∈ l → (y <= mx)%Q.
Proof.
  destruct l as [|x l]; [done|]. intros [= <-]. apply fold_max_spec.
Qed.

(** X5.  For an upward step (positive amplitude) the reported overshoot is a
    finite percentage, and it is positive exactly when some sample from
    the start index on exceeds the final value. *)
Theorem overshoot_positive_iff self m :
  (analyze self).2 = Ok (Some m) →
  (0 < step_amplitude (analyze self).1)%Q →
  ∃ v start, step_start_time (analyze self).1 = Some start ∧
    m !! "overshoot" = Some (Finite v) ∧
    ((0 < v)%Q ↔
     ∃ x, x ∈ slice (pv self) (Some (int (start * 10))) None ∧
          (final_value (analyze self).1 < x)%Q).
Proof.
  intros H Hamp. apply analyze_Some in H.
  destruct (analyze_same_trace self) as (_ & Hp & _).
  set (a := (analyze self).1) in *. clearbody a.
  destruct (compute_metrics_inv a m H)
    as (start & idx & m1 & max_pv & st & settle & Hstart & _ & _ & Hmax & _ & _ & ->).
  rewrite Hp in Hmax. apply max_seq_spec in Hmax as [Hin Hle].
  rewrite lookup_insert_ne, lookup_insert_ne, lookup_insert_eq by done.
  unfold np_truediv.
  assert (Qeq_bool (step_amplitude a) 0 = false) as ->.
  { apply not_true_iff_false. rewrite Qeq_bool_iff. lra. }
  eexists _, start. split_and!; [done | reflexivity |].
  set (A := step_amplitude a) in *. set (F := final_value a) in *.
  assert (HA : (0 < / A)%Q) by (by apply Qinv_lt_0_compat).
  unfold Qdiv. split.
  - intros Hv. exists max_pv. split; [done|].
    destruct (Qlt_le_dec F max_pv) as [?|Hle']; [done|exfalso].
    assert ((max_pv - F) * / A * 100 <= 0)%Q; [|lra].
    assert ((max_pv - F) * / A <= 0)%Q; [|lra].
    rewrite <- (Qmult_0_l (/ A)). apply Qmult_le_compat_r; lra.
  - intros (x & Hx & Hlt). apply Hle in Hx.
    assert (0 < (max_pv - F) * / A)%Q; [|lra].
    apply Qmult_lt_0_compat; lra.
Qed.

Lemma overshoot_positive_iff_witness :
  ∃ m v, (analyze Traces.up_step).2 = Ok (Some m) ∧
         m !! "overshoot" = Some (Finite v).
Proof.
  destruct (is_metrics_inv (analyze Traces.up_step).2) as [m E];
    [vm_compute; reflexivity|].
  destruct (overshoot_positive_iff Traces.up_step m E) as (v & start & _ & Hv & _);
    [vm_compute; reflexivity|].
  by exists m, v.
Defined.

End MetricFormulas.

(** ** More on the engine: recording, retention, extrema *)

Section EngineMore.
Import PIDTuningApp Queues.

Implicit Types (self : t) (q : list msg) (ds : list data_msg).

Lemma recorded_nil a : recorded a [] = a.
Proof. destruct a. unfold recorded. simpl. by rewrite !app_nil_r. Qed.

Lemma recorded_cons a d ds :
  recorded a (d :: ds) =
  recorded (StepResponseAnalyzer.add_data a (m_time d / 1000)%Q (m_pv d) (m_sp d) (m_output d)) ds.
Proof.
  unfold recorded, StepResponseAnalyzer.add_data. simpl.
  by rewrite <- !(assoc_L (++)).
Qed.

(** While a step test is active, a drain without step-test events
    appends its samples to the analyzer and stays active. *)
Lemma process_data_recording self q :
  step_test_active self = true → no_step_events q = true →
  analyzer (process_data self q) = recorded (analyzer self) (samples q) ∧
  step_test_active (process_data self q) = true.
Proof.
  revert self. induction q as [|m q IH]; intros self Hact Hq.
  { by rewrite recorded_nil. }
  simpl in Hq. apply andb_prop in Hq as [Hm Hq].
  unfold process_data in *. cbn [fold_left].
  destruct m as [d| | | |]; try done; try (by apply IH).
  cbn [process_msg].
  assert (Hi : analyzer (ingest self d) =
               StepResponseAnalyzer.add_data (analyzer self) (m_time d / 1000)%Q
                 (m_pv d) (m_sp d) (m_output d) ∧
               step_test_active (ingest self d) = true).
  { unfold ingest. simpl. by rewrite Hact. }
  destruct Hi as [Ha Hact'].
  destruct (IH (ingest self d) Hact' Hq) as [-> ->]. split; [|done].
  change (samples (Data d :: q)) with (d :: samples q).
  by rewrite recorded_cons, Ha.
Qed.


(** X6.  ['step_test_started'] throws away whatever the analyzer held and
    starts recording: after it, the analyzer's trace is exactly the
    samples ingested since, all of them (the trace has no capacity), and
    the recorded step values are back to their defaults. *)
Theorem recording_since_start self q :
  no_step_events q = true →
  let self' := process_data self (StepTestStarted :: q) in
  step_test_active self' = true ∧
  analyzer self' = recorded StepResponseAnalyzer.init (samples q).
Proof.
  intros Hq self'. unfold self', process_data. cbn [fold_left process_msg].
  destruct (process_data_recording
              (with_analyzer self (StepResponseAnalyzer.reset (analyzer self)) true) q)
    as [Ha Hact]; [done | done |].
  unfold process_data in *. by rewrite Ha, Hact.
Qed.

Lemma recording_since_start_witness :
  let q := [Data Sessions.fine_sample; Status; Data Sessions.fine_sample] in
  no_step_events q = true ∧
  StepResponseAnalyzer.pv (analyzer (process_data init (StepTestStarted :: q))) =
  [1.3125; 1.3125]%Q.
Proof.
  intros q. split; [reflexivity|].
  destruct (recording_since_start init q eq_refl) as [_ ->]. reflexivity.
Defined.






End EngineMore.

Section ExtremaMore.
Import PIDTuningApp Queues.

Implicit Types (self : t) (acts : list action).









End ExtremaMore.

(** ** The plot: window and axis limits *)

Section PlotFacts.
Import PIDTuningApp Plot More.

Implicit Types (app : PIDTuningApp.t) (v : Plot.t) (l ts : list Q).

Lemma slice_from_nonneg {A} (l : list A) i :
  0 ≤ i → slice l (Some i) None = drop (Z.to_nat i) l.
Proof.
  intros Hi. unfold slice, clamp. simpl.
  destruct (Z.ltb_spec i 0); [lia|]. unfold len.
  destruct (Z.le_gt_cases i (Z.of_nat (length l))).
  - replace (Z.min i (Z.of_nat (length l))) with i by lia.
    apply take_ge. rewrite length_drop. lia.
  - replace (Z.min i (Z.of_nat (length l))) with (Z.of_nat (length l)) by lia.
    rewrite Z.sub_diag. simpl. by rewrite (drop_ge l (Z.to_nat i)) by lia.
Qed.

Lemma fold_min_spec l x :
  let mn := fold_left Py.min l x in
  mn ∈ x :: l ∧ ∀ y, y ∈ x :: l → (mn <= y)%Q.
Proof.
  revert x. induction l as [|z l IH]; intros x; simpl.
  - split; [by left|]. intros y ->%list_elem_of_singleton. apply Qle_refl.
  - destruct (IH (Py.min x z)) as [Hin Hle]. split.
    + apply elem_of_cons in Hin as [->|Hin]; [|right; by right].
      unfold Py.min. destruct (ltb z x); [right; by left | by left].
    + intros y Hy.
      assert (Hx : (Py.min x z <= x)%Q ∧ (Py.min x z <= z)%Q).
      { unfold Py.min. destruct (ltb z x) eqn:E.
        - apply ltb_lt in E. lra.
        - apply ltb_ge in E. lra. }
      pose proof (Hle (Py.min x z) ltac:(by left)).
      apply elem_of_cons in Hy as [->|[->|Hy]%elem_of_cons]; [lra | lra |].
      apply Hle. by right.
Qed.

Lemma min_seq_spec l mn :
  min_seq l = Ok mn → mn ∈ l ∧ ∀ y, y ∈ l → (mn <= y)%Q.
Proof.
  destruct l as [|x l]; [done|]. intros [= <-]. apply fold_min_spec.
Qed.

Lemma min_seq_ok l : l ≠ [] → ∃ mn, min_seq l = Ok mn.
Proof. destruct l; [done|]. by eexists. Qed.

Lemma max_seq_ok l : l ≠ [] → ∃ mx, max_seq l = Ok mx.
Proof. destruct l; [done|]. by eexists. Qed.

(** What the search for the first visible sample returns. *)
Lemma first_visible_spec x ts i :
  match first_visible x ts i with
  | Some j => ∃ k : nat, j = i + Z.of_nat k ∧
                         (∃ tm, ts !! k = Some tm ∧ (x <= tm)%Q) ∧
                         ∀ (k' : nat) tm, (k' < k)%nat → ts !! k' = Some tm → (tm < x)%Q
  | None => ∀ tm, tm ∈ ts → (tm < x)%Q
  end.
Proof.
  revert i. induction ts as [|tm ts IH]; intros i; simpl.
  - by intros ? ?%elem_of_nil.
  - destruct (leb x tm) eqn:E.
    + apply leb_le in E. exists 0%nat. split_and!; [lia | by exists tm | intros; lia].
    + assert (Hlt : (tm < x)%Q).
      { apply Qnot_le_lt. intros H. apply leb_le in H. congruence. }
      specialize (IH (i + 1)). destruct (first_visible x ts (i + 1)) as [j|].
      * destruct IH as (k & -> & Hk & Hbefore). exists (S k).
        split_and!; [lia | done |].
        intros [|k'] tm' Hk' Hl; simpl in Hl; [by injection Hl as <-|].
        apply (Hbefore k'); [lia | done].
      * intros tm' [->|?]%elem_of_cons; [done | by apply IH].
Qed.

(** The index where the visible part starts always lies inside a
    non-empty series. *)
Lemma visible_start_in_range x ts :
  ts ≠ [] → 0 ≤ default 0 (first_visible x ts 0) < len ts.
Proof.
  intros Hne. pose proof (first_visible_spec x ts 0) as H.
  destruct (first_visible x ts 0) as [j|]; simpl.
  - destruct H as (k & -> & (tm & Hk & _) & _). apply lookup_lt_Some in Hk.
    unfold len. lia.
  - unfold len. destruct ts; [done|]. simpl. lia.
Qed.

Lemma x_min_le_last w t_last : 0 ≤ w → (0 <= t_last)%Q → (x_min w t_last <= t_last)%Q.
Proof.
  intros Hw Ht. unfold x_min, Py.max.
  assert (inject_Z 0 <= inject_Z w)%Q by (by rewrite <- Zle_Qle).
  change (inject_Z 0) with 0%Q in *.
  destruct (ltb 0 _); lra.
Qed.

End PlotFacts.

Section PlotTheorems.
Import PIDTuningApp Plot More.

Implicit Types (app : PIDTuningApp.t) (v : Plot.t) (l ts : list Q).

Lemma scale_pv_off v l1 l2 : auto_y_scale_pv v = false → scale_pv v l1 l2 = Ok None.
Proof. intros H. unfold scale_pv. by rewrite H. Qed.

Lemma scale_pv_on v l1 l2 :
  auto_y_scale_pv v = true → l1 ≠ [] → l2 ≠ [] →
  ∃ lo hi, scale_pv v l1 l2 = Ok (Some (lo, hi)) ∧
    (∀ x, x ∈ l1 ++ l2 → (lo + 5 <= x <= hi - 5)%Q) ∧
    (∃ x, x ∈ l1 ++ l2 ∧ (lo + 5 == x)%Q) ∧ (∃ x, x ∈ l1 ++ l2 ∧ (hi - 5 == x)%Q).
Proof.
  intros Hon H1 H2. unfold scale_pv. rewrite Hon.
  assert ((0 <? len l1) = true) as ->.
  { apply Z.ltb_lt. unfold len. destruct l1; [done|]. simpl. lia. }
  destruct (min_seq_ok l1 H1) as [a Ha]. destruct (min_seq_ok l2 H2) as [b Hb].
  destruct (max_seq_ok l1 H1) as [c Hc]. destruct (max_seq_ok l2 H2) as [d Hd].
  cbn [andb]. rewrite Ha, Hb, Hc, Hd. cbn [mbind outcome_bind Py.bind].
  apply min_seq_spec in Ha as [Ha1 Ha2]. apply min_seq_spec in Hb as [Hb1 Hb2].
  apply max_seq_spec in Hc as [Hc1 Hc2]. apply max_seq_spec in Hd as [Hd1 Hd2].
  eexists _, _. split; [reflexivity|].
  assert (Hmin : (Py.min a b <= a)%Q ∧ (Py.min a b <= b)%Q ∧ (Py.min a b = a ∨ Py.min a b = b)).
  { unfold Py.min. destruct (ltb b a) eqn:E;
      [apply ltb_lt in E | apply ltb_ge in E]; split_and!; try lra; auto. }
  assert (Hmax : (c <= Py.max c d)%Q ∧ (d <= Py.max c d)%Q ∧ (Py.max c d = c ∨ Py.max c d = d)).
  { unfold Py.max. destruct (ltb c d) eqn:E;
      [apply ltb_lt in E | apply ltb_ge in E]; split_and!; try lra; auto. }
  destruct Hmin as (? & ? & Hmin). destruct Hmax as (? & ? & Hmax).
  split_and!.
  - intros x [Hx|Hx]%elem_of_app.
    + pose proof (Ha2 x Hx). pose proof (Hc2 x Hx). lra.
    + pose proof (Hb2 x Hx). pose proof (Hd2 x Hx). lra.
  - destruct Hmin as [-> | ->]; [exists a | exists b];
      (split; [apply elem_of_app; auto | ring]).
  - destruct Hmax as [-> | ->]; [exists c | exists d];
      (split; [apply elem_of_app; auto | ring]).
Qed.

Lemma scale_one_off margin l : scale_one false margin l = Ok None.
Proof. done. Qed.

Lemma scale_one_on margin l :
  l ≠ [] →
  ∃ lo hi, scale_one true margin l = Ok (Some (lo, hi)) ∧
    (∀ x, x ∈ l → (lo + margin <= x <= hi - margin)%Q) ∧
    (∃ x, x ∈ l ∧ (lo + margin == x)%Q) ∧ (∃ x, x ∈ l ∧ (hi - margin == x)%Q).
Proof.
  intros H1. unfold scale_one.
  assert ((0 <? len l) = true) as ->.
  { apply Z.ltb_lt. unfold len. destruct l; [done|]. simpl. lia. }
  destruct (min_seq_ok l H1) as [a Ha]. destruct (max_seq_ok l H1) as [c Hc].
  cbn [andb]. rewrite Ha, Hc. cbn [mbind outcome_bind Py.bind].
  apply min_seq_spec in Ha as [Ha1 Ha2]. apply max_seq_spec in Hc as [Hc1 Hc2].
  eexists _, _. split; [reflexivity|]. split_and!.
  - intros x Hx. pose proof (Ha2 x Hx). pose proof (Hc2 x Hx). lra.
  - exists a. split; [done | ring].
  - exists c. split; [done | ring].
Qed.

(** The series of a well-formed store, as lists of one length. *)
Lemma store_wf_lengths app :
  store_wf app →
  length (items (pv_data app)) = length (items (time_data app)) ∧
  length (items (sp_data app)) = length (items (time_data app)) ∧
  length (items (output_data app)) = length (items (time_data app)) ∧
  length (items (error_data app)) = length (items (time_data app)) ∧
  length (items (p_term_data app)) = length (items (time_data app)) ∧
  length (items (i_term_data app)) = length (items (time_data app)) ∧
  length (items (d_term_data app)) = length (items (time_data app)).
Proof.
  unfold store_wf, series. rewrite !Forall_cons, Forall_nil.
  intros H. repeat match goal with H : _ ∧ _ |- _ => destruct H end. by split_and!.
Qed.

(** [update_plot] on a non-empty, well-formed store, phase by phase:
    [vs] is [visible_start], [y1], [y2], [y3] what the three auto-scale
    blocks computed. *)
Lemma update_plot_wf app v :
  store_wf app → items (time_data app) ≠ [] →
  ∃ t_last (vs : nat) y1 y2 y3,
    let times := items (time_data app) in
    let xl := (x_min (time_window v) t_last, t_last) in
    let v1 := set_lines_and_xlim v times (items (pv_data app)) (items (sp_data app))
                (items (output_data app)) (items (error_data app)) xl in
    let v2 := from_option (set_ylim1 v1) v1 y1 in
    let v3 := from_option (set_ylim2 v2) v2 y2 in
    last times = Some t_last ∧
    Z.of_nat vs = default 0 (first_visible xl.1 times 0) ∧ (vs < length times)%nat ∧
    scale_pv v (drop vs (items (pv_data app))) (drop vs (items (sp_data app))) = Ok y1 ∧
    scale_one (auto_y_scale_output v) 10 (drop vs (items (output_data app))) = Ok y2 ∧
    scale_one (auto_y_scale_error v) 2 (drop vs (items (error_data app))) = Ok y3 ∧
    update_plot app v = (from_option (set_ylim3 v3) v3 y3, Ok tt).
Proof.
  intros Hwf Hne.
  destruct (store_wf_lengths app Hwf) as (Lp & Ls & Lo & Le & _).
  destruct (last (items (time_data app))) as [t_last|] eqn:Hlast;
    [|by apply last_None in Hlast].
  pose proof (proj2 (getitem_last _ _) Hlast) as Hget.
  pose proof (visible_start_in_range (x_min (time_window v) t_last) _ Hne) as Hvs.
  set (vsz := default 0 (first_visible (x_min (time_window v) t_last)
                           (items (time_data app)) 0)) in *.
  assert (Hdrop : ∀ d, length (items d) = length (items (time_data app)) →
                       slice (items d) (Some vsz) None = drop (Z.to_nat vsz) (items d) ∧
                       drop (Z.to_nat vsz) (items d) ≠ []).
  { intros d Hd. split; [apply slice_from_nonneg; lia|].
    intros Hnil. apply (f_equal length) in Hnil. rewrite length_drop in Hnil.
    unfold len in Hvs. simpl in Hnil. lia. }
  destruct (Hdrop _ Lp) as [Sp Np]. destruct (Hdrop _ Ls) as [Ss Ns].
  destruct (Hdrop _ Lo) as [So No]. destruct (Hdrop _ Le) as [Se Ne].
  assert (H1 : ∃ y1, scale_pv v (drop (Z.to_nat vsz) (items (pv_data app)))
                       (drop (Z.to_nat vsz) (items (sp_data app))) = Ok y1).
  { destruct (auto_y_scale_pv v) eqn:E.
    - destruct (scale_pv_on v _ _ E Np Ns) as (lo & hi & -> & _). by eexists.
    - rewrite scale_pv_off by done. by eexists. }
  assert (H2 : ∀ b m d, length (items d) = length (items (time_data app)) →
                 ∃ y, scale_one b m (drop (Z.to_nat vsz) (items d)) = Ok y).
  { intros b m d Hd. destruct b; [|by eexists].
    destruct (scale_one_on m _ (proj2 (Hdrop d Hd))) as (lo & hi & -> & _). by eexists. }
  destruct H1 as [y1 Hy1].
  destruct (H2 (auto_y_scale_output v) 10%Q _ Lo) as [y2 Hy2].
  destruct (H2 (auto_y_scale_error v) 2%Q _ Le) as [y3 Hy3].
  exists t_last, (Z.to_nat vsz), y1, y2, y3. cbn zeta.
  split_and!; [done | cbn [fst]; fold vsz; lia | unfold len in Hvs; lia | done | done | done |].
  unfold update_plot.
  assert ((0 <? len (items (time_data app))) = true) as ->.
  { apply Z.ltb_lt. unfold len in *. lia. }
  rewrite Hget. cbn [mbind outcome_bind Py.bind fst]. fold vsz.
  rewrite Sp, Ss, So, Se.
  assert (Hflag : ∀ xl, scale_pv (set_lines_and_xlim v (items (time_data app))
                                    (items (pv_data app)) (items (sp_data app))
                                    (items (output_data app)) (items (error_data app)) xl)
                        = scale_pv v) by done.
  rewrite Hflag, Hy1.
  destruct y1 as [yl1|]; cbn [from_option];
    (change (auto_y_scale_output (set_ylim1 _ _)) with (auto_y_scale_output v)
     || change (auto_y_scale_output (set_lines_and_xlim _ _ _ _ _ _ _)) with (auto_y_scale_output v));
    rewrite Hy2;
    destruct y2 as [yl2|]; cbn [from_option];
    (change (auto_y_scale_error (set_ylim2 _ _)) with (auto_y_scale_error v)
     || change (auto_y_scale_error (set_ylim1 _ _)) with (auto_y_scale_error v)
     || change (auto_y_scale_error (set_lines_and_xlim _ _ _ _ _ _ _)) with (auto_y_scale_error v));
    by rewrite Hy3.
Qed.



(** Clearing the plot does not redraw it: the [update_plot] call that
    ends [clear_plot] finds the store empty and returns at once, so the
    lines and all the limits stay what they were. *)
Theorem clear_plot_keeps_chart app v :
  update_plot (clear_plot app) v = (v, Ok tt).
Proof. done. Qed.

End PlotTheorems.

Section PlotWindow.
Import PIDTuningApp Plot More.

Implicit Types (app : PIDTuningApp.t) (v : Plot.t) (l ts : list Q).

(** A sample inside the window is at or after [visible_start]. *)
Lemma in_window_after_start app v k t_last :
  last (items (time_data app)) = Some t_last →
  in_window app v k →
  default 0 (first_visible (x_min (time_window v) t_last) (items (time_data app)) 0)
  ≤ Z.of_nat k.
Proof.
  intros Hlast (tm & t_last' & Hk & Hlast' & Hle).
  assert (t_last' = t_last) as -> by congruence.
  pose proof (first_visible_spec (x_min (time_window v) t_last) (items (time_data app)) 0) as H.
  destruct (first_visible _ _ 0) as [j|]; simpl.
  - destruct H as (k0 & -> & _ & Hbefore).
    destruct (decide (k < k0)%nat) as [Hlt|]; [|lia].
    pose proof (Hbefore k tm Hlt Hk). lra.
  - apply list_elem_of_lookup_2 in Hk. apply H in Hk. lra.
Qed.

Lemma elem_of_drop_lookup (l : list Q) (n k : nat) x :
  (n ≤ k)%nat → l !! k = Some x → x ∈ drop n l.
Proof.
  intros Hn Hk. apply list_elem_of_lookup. exists (k - n)%nat.
  rewrite lookup_drop. by replace (n + (k - n))%nat with k by lia.
Qed.

(** X12.  Auto-scaling covers the window: with a chart's auto-scale box
    ticked, every sample whose time stamp lies inside the x limits is
    inside the new y limits with the chart's margin to spare (5 for
    pv/setpoint, 10 for output, 2 for error); with the box unticked the
    y limits are left alone. *)
Theorem autoscale_covers_window app v :
  store_wf app →
  let v' := (update_plot app v).1 in
  (if auto_y_scale_pv v then
     ∀ k x, in_window app v k →
       items (pv_data app) !! k = Some x ∨ items (sp_data app) !! k = Some x →
       ((ylim1 v').1 + 5 <= x <= (ylim1 v').2 - 5)%Q
   else ylim1 v' = ylim1 v) ∧
  (if auto_y_scale_output v then
     ∀ k x, in_window app v k → items (output_data app) !! k = Some x →
       ((ylim2 v').1 + 10 <= x <= (ylim2 v').2 - 10)%Q
   else ylim2 v' = ylim2 v) ∧
  (if auto_y_scale_error v then
     ∀ k x, in_window app v k → items (error_data app) !! k = Some x →
       ((ylim3 v').1 + 2 <= x <= (ylim3 v').2 - 2)%Q
   else ylim3 v' = ylim3 v).
Proof.
  intros Hwf v'. destruct (items (time_data app)) as [|t0 ts] eqn:E.
  { assert (Hnone : ∀ k, ¬ in_window app v k).
    { intros k (tm & _ & Hk & _). by rewrite E in Hk. }
    assert (Hv : v' = v) by (unfold v', update_plot; by rewrite E).
    rewrite Hv.
    destruct (auto_y_scale_pv v), (auto_y_scale_output v), (auto_y_scale_error v);
      split_and!; try done; intros k x Hk; by apply Hnone in Hk. }
  destruct (update_plot_wf app v Hwf) as (t_last & vs & y1 & y2 & y3 & H); [by rewrite E|].
  cbn zeta in H. destruct H as (Hlast & Hvs & Hlt & H1 & H2 & H3 & Hup).
  clear E.
  assert (Hin : ∀ k, in_window app v k → (vs ≤ k)%nat).
  { intros k Hk. pose proof (in_window_after_start app v k t_last Hlast Hk). cbn [fst] in Hvs. lia. }
  destruct (store_wf_lengths app Hwf) as (Lp & Ls & Lo & Le & _).
  assert (Hne : ∀ d, length (items d) = length (items (time_data app)) →
                     drop vs (items d) ≠ []).
  { intros d Hd Hnil. apply (f_equal length) in Hnil. rewrite length_drop in Hnil.
    simpl in Hnil. lia. }
  unfold v'. rewrite Hup. clear Hup v'. split_and!.
  - destruct (auto_y_scale_pv v) eqn:F.
    + destruct (scale_pv_on v _ _ F (Hne _ Lp) (Hne _ Ls)) as (lo & hi & Hs & Hall & _).
      rewrite Hs in H1. injection H1 as <-.
      intros k x Hk Hx.
      assert (Hel : x ∈ drop vs (items (pv_data app)) ++ drop vs (items (sp_data app))).
      { apply elem_of_app.
        destruct Hx as [Hx|Hx]; [left | right]; by apply (elem_of_drop_lookup _ vs k); [apply Hin|]. }
      apply Hall in Hel. by destruct y2, y3.
    + rewrite scale_pv_off in H1 by done. injection H1 as <-. by destruct y2, y3.
  - destruct (auto_y_scale_output v) eqn:F.
    + destruct (scale_one_on 10 _ (Hne _ Lo)) as (lo & hi & Hs & Hall & _).
      rewrite Hs in H2. injection H2 as <-.
      intros k x Hk Hx.
      assert (Hel : x ∈ drop vs (items (output_data app)))
        by (by apply (elem_of_drop_lookup _ vs k); [apply Hin|]).
      apply Hall in Hel. by destruct y1, y3.
    + injection H2 as <-. by destruct y1, y3.
  - destruct (auto_y_scale_error v) eqn:F.
    + destruct (scale_one_on 2 _ (Hne _ Le)) as (lo & hi & Hs & Hall & _).
      rewrite Hs in H3. injection H3 as <-.
      intros k x Hk Hx.
      assert (Hel : x ∈ drop vs (items (error_data app)))
        by (by apply (elem_of_drop_lookup _ vs k); [apply Hin|]).
      apply Hall in Hel. by destruct y1, y2.
    + injection H3 as <-. by destruct y1, y2.
Qed.

End PlotWindow.

Section PlotSorted.
Import PIDTuningApp Plot More.

Implicit Types (app : PIDTuningApp.t) (v : Plot.t) (l ts : list Q).

(** The window as a range of indices. *)
Lemma first_visible_suffix app v :
  nondecreasing (items (time_data app)) →
  (∀ x, x ∈ items (time_data app) → (0 <= x)%Q) →
  0 ≤ time_window v → items (time_data app) ≠ [] →
  ∃ (vs : nat) t_last,
    last (items (time_data app)) = Some t_last ∧
    first_visible (x_min (time_window v) t_last) (items (time_data app)) 0 = Some (Z.of_nat vs) ∧
    (vs < length (items (time_data app)))%nat ∧
    ∀ k, (k < length (items (time_data app)))%nat → (in_window app v k ↔ (vs ≤ k)%nat).
Proof.
  intros Hsorted Hpos Hw Hne.
  destruct (last (items (time_data app))) as [t_last|] eqn:Hlast;
    [|by apply last_None in Hlast].
  assert (Hreach : (x_min (time_window v) t_last <= t_last)%Q).
  { apply x_min_le_last; [done|]. apply Hpos. rewrite last_lookup in Hlast.
    by eapply list_elem_of_lookup_2. }
  pose proof (first_visible_spec (x_min (time_window v) t_last) (items (time_data app)) 0) as H.
  destruct (first_visible _ _ 0) as [j|] eqn:Efv.
  - destruct H as (k0 & -> & (tm0 & Hk0 & Hle0) & Hbefore).
    exists k0, t_last.
    split_and!; [done | rewrite Efv; f_equal; lia | by eapply lookup_lt_Some |].
    intros k Hk. split.
    + intros (tm & t_last' & Htm & Hl' & Hle).
      destruct (decide (k < k0)%nat) as [Hlt|]; [|lia].
      pose proof (Hbefore k tm Hlt Htm). assert (t_last' = t_last) as -> by congruence. lra.
    + intros Hge. destruct (lookup_lt_is_Some_2 _ _ Hk) as [tm Htm].
      exists tm, t_last. split_and!; [done | done |].
      pose proof (Hsorted k0 k tm0 tm Hge Hk0 Htm). lra.
  - exfalso. rewrite last_lookup in Hlast. apply list_elem_of_lookup_2 in Hlast.
    apply H in Hlast. lra.
Qed.

(** X13.  With time stamps that are non-negative and never go back, and a
    non-negative window, the samples inside the window are exactly the
    store from [visible_start] on: a contiguous suffix that always
    contains the newest sample. *)
Theorem window_is_suffix app v :
  nondecreasing (items (time_data app)) →
  (∀ x, x ∈ items (time_data app) → (0 <= x)%Q) →
  0 ≤ time_window v → items (time_data app) ≠ [] →
  ∃ (vs : nat) t_last,
    last (items (time_data app)) = Some t_last ∧
    first_visible (x_min (time_window v) t_last) (items (time_data app)) 0 = Some (Z.of_nat vs) ∧
    (vs < length (items (time_data app)))%nat ∧
    ∀ k, (k < length (items (time_data app)))%nat → (in_window app v k ↔ (vs ≤ k)%nat).
Proof. exact (first_visible_suffix app v). Qed.

Lemma window_is_suffix_witness :
  let app := process_data PIDTuningApp.init (Data <$> [Sessions.fine_sample; Sessions.fine_sample]) in
  ∃ vs : nat, ∀ k, (k < length (items (time_data app)))%nat →
                   (in_window app Plot.init k ↔ (vs ≤ k)%nat).
Proof.
  intros app.
  destruct (window_is_suffix app Plot.init) as (vs & t_last & _ & _ & _ & H).
  - apply nondecreasing_check. vm_compute. reflexivity.
  - apply nonneg_check. vm_compute. reflexivity.
  - simpl. lia.
  - vm_compute. discriminate.
  - by exists vs.
Defined.

Lemma elem_of_drop_inv (l : list Q) (n : nat) x :
  x ∈ drop n l → ∃ k, (n ≤ k)%nat ∧ l !! k = Some x.
Proof.
  intros [j Hj]%list_elem_of_lookup. rewrite lookup_drop in Hj.
  exists (n + j)%nat. split; [lia | done].
Qed.

(** X14.  The auto-scaled limits are tight: with time stamps that are
    non-negative and never go back and a non-negative window, the lower
    pv/setpoint limit plus 5 and the upper
    limit minus 5 are values of samples inside the window (likewise with
    10 for the output chart and 2 for the error chart): the limits depend
    on the visible data only. *)
Theorem autoscale_tight app v :
  store_wf app →
  nondecreasing (items (time_data app)) →
  (∀ x, x ∈ items (time_data app) → (0 <= x)%Q) →
  0 ≤ time_window v → items (time_data app) ≠ [] →
  let v' := (update_plot app v).1 in
  (auto_y_scale_pv v = true →
   (∃ k x, in_window app v k ∧
           (items (pv_data app) !! k = Some x ∨ items (sp_data app) !! k = Some x) ∧
           ((ylim1 v').1 + 5 == x)%Q) ∧
   (∃ k x, in_window app v k ∧
           (items (pv_data app) !! k = Some x ∨ items (sp_data app) !! k = Some x) ∧
           ((ylim1 v').2 - 5 == x)%Q)) ∧
  (auto_y_scale_output v = true →
   (∃ k x, in_window app v k ∧ items (output_data app) !! k = Some x ∧
           ((ylim2 v').1 + 10 == x)%Q) ∧
   (∃ k x, in_window app v k ∧ items (output_data app) !! k = Some x ∧
           ((ylim2 v').2 - 10 == x)%Q)) ∧
  (auto_y_scale_error v = true →
   (∃ k x, in_window app v k ∧ items (error_data app) !! k = Some x ∧
           ((ylim3 v').1 + 2 == x)%Q) ∧
   (∃ k x, in_window app v k ∧ items (error_data app) !! k = Some x ∧
           ((ylim3 v').2 - 2 == x)%Q)).
Proof.
  intros Hwf Hsorted Hpos Hw Hne v'.
  destruct (first_visible_suffix app v Hsorted Hpos Hw Hne) as (vs0 & t_last0 & Hl0 & Hfv & _ & Hwin).
  destruct (update_plot_wf app v Hwf Hne) as (t_last & vs & y1 & y2 & y3 & H).
  cbn zeta in H. destruct H as (Hlast & Hvs & Hlt & H1 & H2 & H3 & Hup).
  assert (t_last0 = t_last) as -> by congruence.
  cbn [fst] in Hvs. rewrite Hfv in Hvs. simpl in Hvs. assert (vs0 = vs) as -> by lia.
  destruct (store_wf_lengths app Hwf) as (Lp & Ls & Lo & Le & _).
  assert (Hne' : ∀ d, length (items d) = length (items (time_data app)) →
                      drop vs (items d) ≠ []).
  { intros d Hd Hnil. apply (f_equal length) in Hnil. rewrite length_drop in Hnil.
    simpl in Hnil. lia. }
  assert (Hback : ∀ d x, length (items d) = length (items (time_data app)) →
                         x ∈ drop vs (items d) →
                         ∃ k, in_window app v k ∧ items d !! k = Some x).
  { intros d x Hd [k [Hk Hx]]%elem_of_drop_inv. exists k. split; [|done].
    apply Hwin; [|done]. apply lookup_lt_Some in Hx. lia. }
  unfold v'. rewrite Hup. clear Hup v'. split_and!.
  - intros F.
    destruct (scale_pv_on v _ _ F (Hne' _ Lp) (Hne' _ Ls))
      as (lo & hi & Hs & _ & (x & Hx & Hlo) & (x' & Hx' & Hhi)).
    rewrite Hs in H1. injection H1 as <-.
    assert (Hb2 : ∀ z, z ∈ drop vs (items (pv_data app)) ++ drop vs (items (sp_data app)) →
                       ∃ k, in_window app v k ∧
                            (items (pv_data app) !! k = Some z ∨ items (sp_data app) !! k = Some z)).
    { intros z [Hz|Hz]%elem_of_app.
      - destruct (Hback _ _ Lp Hz) as (k & ? & ?). exists k. auto.
      - destruct (Hback _ _ Ls Hz) as (k & ? & ?). exists k. auto. }
    split.
    + destruct (Hb2 x Hx) as (k & Hk & Hkx). exists k, x. by destruct y2, y3.
    + destruct (Hb2 x' Hx') as (k & Hk & Hkx). exists k, x'. by destruct y2, y3.
  - intros F. rewrite F in H2.
    destruct (scale_one_on 10 _ (Hne' _ Lo))
      as (lo & hi & Hs & _ & (x & Hx & Hlo) & (x' & Hx' & Hhi)).
    rewrite Hs in H2. injection H2 as <-. split.
    + destruct (Hback _ _ Lo Hx) as (k & Hk & Hkx). exists k, x. by destruct y1, y3.
    + destruct (Hback _ _ Lo Hx') as (k & Hk & Hkx). exists k, x'. by destruct y1, y3.
  - intros F. rewrite F in H3.
    destruct (scale_one_on 2 _ (Hne' _ Le))
      as (lo & hi & Hs & _ & (x & Hx & Hlo) & (x' & Hx' & Hhi)).
    rewrite Hs in H3. injection H3 as <-. split.
    + destruct (Hback _ _ Le Hx) as (k & Hk & Hkx). exists k, x. by destruct y1, y2.
    + destruct (Hback _ _ Le Hx') as (k & Hk & Hkx). exists k, x'. by destruct y1, y2.
Qed.

Lemma autoscale_tight_witness :
  let app := process_data PIDTuningApp.init (Data <$> [Sessions.fine_sample; Sessions.fine_sample]) in
  store_wf app ∧
  ∃ k x, in_window app Plot.init k ∧
         (items (pv_data app) !! k = Some x ∨ items (sp_data app) !! k = Some x) ∧
         ((ylim1 (update_plot app Plot.init).1).1 + 5 == x)%Q.
Proof.
  intros app.
  assert (Hwf : store_wf app) by (apply store_wf_process_data, store_wf_init).
  split; [done|].
  destruct (autoscale_tight app Plot.init Hwf) as ((H & _) & _).
  - apply nondecreasing_check. vm_compute. reflexivity.
  - apply nonneg_check. vm_compute. reflexivity.
  - simpl. lia.
  - vm_compute. discriminate.
  - reflexivity.
  - exact H.
Defined.

Lemma autoscale_covers_window_witness :
  let app := process_data PIDTuningApp.init (Data <$> [Sessions.fine_sample; Sessions.fine_sample]) in
  store_wf app ∧
  ∀ k x, in_window app Plot.init k →
    items (pv_data app) !! k = Some x ∨ items (sp_data app) !! k = Some x →
    ((ylim1 (update_plot app Plot.init).1).1 + 5 <= x
     <= (ylim1 (update_plot app Plot.init).1).2 - 5)%Q.
Proof.
  intros app.
  assert (Hwf : store_wf app) by (apply store_wf_process_data, store_wf_init).
  split; [done|].
  exact (proj1 (autoscale_covers_window app Plot.init Hwf)).
Defined.

End PlotSorted.

(** ** The CSV export *)

Section SaveFacts.
Import PIDTuningApp Save More.

Implicit Types (self : PIDTuningApp.t) (rows : list (list Q)).

Lemma row_at_wf self t0 (k : nat) :
  store_wf self → (k < length (items (time_data self)))%nat →
  ∃ tm pv sp out err p i d,
    items (time_data self) !! k = Some tm ∧ items (pv_data self) !! k = Some pv ∧
    items (sp_data self) !! k = Some sp ∧ items (output_data self) !! k = Some out ∧
    items (error_data self) !! k = Some err ∧ items (p_term_data self) !! k = Some p ∧
    items (i_term_data self) !! k = Some i ∧ items (d_term_data self) !! k = Some d ∧
    row_at self t0 (Z.of_nat k) = Ok [(tm - t0)%Q; pv; sp; out; err; p; i; d].
Proof.
  intros Hwf Hk.
  destruct (store_wf_lengths self Hwf) as (L1 & L2 & L3 & L4 & L5 & L6 & L7).
  destruct (lookup_lt_is_Some_2 (items (time_data self)) k) as [tm Htm]; [lia|].
  destruct (lookup_lt_is_Some_2 (items (pv_data self)) k) as [pv Hpv]; [lia|].
  destruct (lookup_lt_is_Some_2 (items (sp_data self)) k) as [sp Hsp]; [lia|].
  destruct (lookup_lt_is_Some_2 (items (output_data self)) k) as [out Hout]; [lia|].
  destruct (lookup_lt_is_Some_2 (items (error_data self)) k) as [err Herr]; [lia|].
  destruct (lookup_lt_is_Some_2 (items (p_term_data self)) k) as [p Hp]; [lia|].
  destruct (lookup_lt_is_Some_2 (items (i_term_data self)) k) as [i Hi]; [lia|].
  destruct (lookup_lt_is_Some_2 (items (d_term_data self)) k) as [d Hd]; [lia|].
  exists tm, pv, sp, out, err, p, i, d. split_and!; try done.
  unfold row_at.
  by rewrite (getitem_nat _ _ _ Htm), (getitem_nat _ _ _ Hpv), (getitem_nat _ _ _ Hsp),
    (getitem_nat _ _ _ Hout), (getitem_nat _ _ _ Herr), (getitem_nat _ _ _ Hp),
    (getitem_nat _ _ _ Hi), (getitem_nat _ _ _ Hd).
Qed.

(** The rows written for the indices [a .. a+n-1] of a well-formed
    store. *)
Lemma write_rows_wf self t0 (a n : nat) :
  store_wf self → (a + n ≤ length (items (time_data self)))%nat →
  ∃ rows, write_rows self t0 (Z.of_nat <$> seq a n) = (rows, None) ∧
    length rows = n ∧
    ∀ j, (j < n)%nat →
      rows !! j =
      (λ r, [(r.1.1.1.1.1.1.1 - t0)%Q; r.1.1.1.1.1.1.2; r.1.1.1.1.1.2; r.1.1.1.1.2;
             r.1.1.1.2; r.1.1.2; r.1.2; r.2]) <$>
      (tm ← items (time_data self) !! (a + j)%nat;
       pv ← items (pv_data self) !! (a + j)%nat;
       sp ← items (sp_data self) !! (a + j)%nat;
       out ← items (output_data self) !! (a + j)%nat;
       err ← items (error_data self) !! (a + j)%nat;
       p ← items (p_term_data self) !! (a + j)%nat;
       i ← items (i_term_data self) !! (a + j)%nat;
       d ← items (d_term_data self) !! (a + j)%nat;
       Some (tm, pv, sp, out, err, p, i, d)).
Proof.
  intros Hwf. revert a. induction n as [|n IH]; intros a Hlen.
  - exists []. split_and!; [done | done | intros; lia].
  - change (seq a (S n)) with (a :: seq (S a) n). rewrite fmap_cons. cbn [write_rows].
    destruct (row_at_wf self t0 a Hwf) as (tm & pv & sp & out & err & p & i & d & H); [lia|].
    destruct H as (H1 & H2 & H3 & H4 & H5 & H6 & H7 & H8 & ->).
    destruct (IH (S a)) as (rows & -> & Hl & Hrows); [lia|].
    eexists. split_and!; [done | simpl; lia |].
    intros [|j] Hj.
    + rewrite Nat.add_0_r, H1, H2, H3, H4, H5, H6, H7, H8. done.
    + simpl. rewrite Hrows by lia. by replace (S a + j)%nat with (a + S j)%nat by lia.
Qed.

End SaveFacts.


Section SaveTheorems.
Import PIDTuningApp Save More.

Implicit Types (self : PIDTuningApp.t) (rows : list (list Q)).

Lemma column_of rows (c : nat) (col : list Q) :
  length rows = length col →
  (∀ j r, rows !! j = Some r → r !! c = col !! j) →
  column c rows = Some <$> col.
Proof.
  intros Hlen H. apply list_eq. intros j. unfold column.
  rewrite !list_lookup_fmap.
  destruct (rows !! j) as [r|] eqn:E; simpl.
  - rewrite (H _ _ E).
    destruct (lookup_lt_is_Some_2 col j) as [x ->]; [|done].
    rewrite <- Hlen. by eapply lookup_lt_Some.
  - apply lookup_ge_None_1 in E. by rewrite (lookup_ge_None_2 col j) by lia.
Qed.

Lemma save_data_rows self filename :
  store_wf self → items (time_data self) ≠ [] → filename ≠ ""%string →
  ∃ rows t0,
    save_data self filename = Written rows None ∧
    head (items (time_data self)) = Some t0 ∧
    length rows = length (items (time_data self)) ∧
    ∀ j r, rows !! j = Some r →
      ∃ tm pv sp out err p i d,
        items (time_data self) !! j = Some tm ∧ items (pv_data self) !! j = Some pv ∧
        items (sp_data self) !! j = Some sp ∧ items (output_data self) !! j = Some out ∧
        items (error_data self) !! j = Some err ∧ items (p_term_data self) !! j = Some p ∧
        items (i_term_data self) !! j = Some i ∧ items (d_term_data self) !! j = Some d ∧
        r = [(tm - t0)%Q; pv; sp; out; err; p; i; d].
Proof.
  intros Hwf Hne Hf. unfold save_data.
  destruct (items (time_data self)) as [|t0 ts] eqn:Et; [done|].
  rewrite <- Et.
  assert ((len (items (time_data self)) =? 0) = false) as ->
    by (rewrite Et; unfold len; simpl; lia).
  assert (String.eqb filename "" = false) as -> by by apply String.eqb_neq.
  unfold len. rewrite (range_nat 0), Nat.sub_0_r.
  destruct (write_rows_wf self t0 0 (length (items (time_data self))) Hwf)
    as (rows & -> & Hl & Hrows); [lia|].
  exists rows, t0. split_and!; [done | by rewrite Et | done |].
  intros j r Hr. pose proof (lookup_lt_Some _ _ _ Hr) as Hj. rewrite Hl in Hj.
  rewrite (Hrows j Hj) in Hr. simpl in Hr.
  destruct (store_wf_lengths self Hwf) as (L1 & L2 & L3 & L4 & L5 & L6 & L7).
  destruct (lookup_lt_is_Some_2 (items (time_data self)) j) as [tm Htm]; [lia|].
  destruct (lookup_lt_is_Some_2 (items (pv_data self)) j) as [pv Hpv]; [lia|].
  destruct (lookup_lt_is_Some_2 (items (sp_data self)) j) as [sp Hsp]; [lia|].
  destruct (lookup_lt_is_Some_2 (items (output_data self)) j) as [out Hout]; [lia|].
  destruct (lookup_lt_is_Some_2 (items (error_data self)) j) as [err Herr]; [lia|].
  destruct (lookup_lt_is_Some_2 (items (p_term_data self)) j) as [p Hp]; [lia|].
  destruct (lookup_lt_is_Some_2 (items (i_term_data self)) j) as [i Hi]; [lia|].
  destruct (lookup_lt_is_Some_2 (items (d_term_data self)) j) as [d Hd]; [lia|].
  rewrite Htm, Hpv, Hsp, Hout, Herr, Hp, Hi, Hd in Hr. simpl in Hr.
  injection Hr as <-. exists tm, pv, sp, out, err, p, i, d. by split_and!.
Qed.

(** X15.  Export of a non-empty store to a named file: no exception, one row per
    stored sample, and the eight columns are the eight series, the time
    column shifted so that it is relative to the oldest stored sample. *)
Theorem save_data_exports_store self filename :
  store_wf self → items (time_data self) ≠ [] → filename ≠ ""%string →
  ∃ rows t0,
    save_data self filename = Written rows None ∧
    head (items (time_data self)) = Some t0 ∧
    column 0 rows = Some <$> ((λ tm, tm - t0)%Q <$> items (time_data self)) ∧
    column 1 rows = Some <$> items (pv_data self) ∧
    column 2 rows = Some <$> items (sp_data self) ∧
    column 3 rows = Some <$> items (output_data self) ∧
    column 4 rows = Some <$> items (error_data self) ∧
    column 5 rows = Some <$> items (p_term_data self) ∧
    column 6 rows = Some <$> items (i_term_data self) ∧
    column 7 rows = Some <$> items (d_term_data self).
Proof.
  intros Hwf Hne Hf.
  destruct (save_data_rows self filename Hwf Hne Hf) as (rows & t0 & Hs & Ht0 & Hl & Hrows).
  destruct (store_wf_lengths self Hwf) as (L1 & L2 & L3 & L4 & L5 & L6 & L7).
  exists rows, t0. split_and!; [done | done | ..];
    (apply column_of; [rewrite ?length_fmap; lia |]);
    intros j r Hr;
    destruct (Hrows j r Hr) as (tm & pv & sp & out & err & p & i & d & H);
    destruct H as (H1 & H2 & H3 & H4 & H5 & H6 & H7 & H8 & ->);
    rewrite ?list_lookup_fmap, ?H1; simpl; congruence.
Qed.

Lemma save_data_exports_store_witness :
  let app := run PIDTuningApp.init Sessions.four_samples in
  ∃ rows, save_data app "run.csv" = Written rows None ∧
          column 1 rows = Some <$> items (pv_data app).
Proof.
  intros app.
  destruct (save_data_exports_store app "run.csv") as (rows & t0 & Hs & _ & _ & Hpv & _).
  - apply store_wf_run, store_wf_init.
  - vm_compute. discriminate.
  - discriminate.
  - by exists rows.
Defined.

(** X16.  The first exported time is zero, and when the stored time stamps never
    go back no exported time is negative. *)
Theorem save_data_times_relative self filename rows e :
  save_data self filename = Written rows e →
  (∀ r, head rows = Some r → ∃ z, r !! 0%nat = Some z ∧ (z == 0)%Q) ∧
  (nondecreasing (items (time_data self)) →
   ∀ r z, r ∈ rows → r !! 0%nat = Some z → (0 <= z)%Q).
Proof.
  unfold save_data.
  destruct (len (items (time_data self)) =? 0) eqn:E0; [done|].
  destruct (String.eqb filename ""); [done|].
  destruct (items (time_data self)) as [|t0 ts] eqn:Et; [done|]. rewrite <- Et.
  unfold len. rewrite (range_nat 0), Nat.sub_0_r.
  assert (Hgen : ∀ (a n : nat) rows e,
    write_rows self t0 (Z.of_nat <$> seq a n) = (rows, e) →
    ∀ j r, rows !! j = Some r →
      ∃ tm, items (time_data self) !! (a + j)%nat = Some tm ∧ r !! 0%nat = Some (tm - t0)%Q).
  { intros a n. revert a. induction n as [|n IH]; intros a rs e' Hw j r Hr.
    - injection Hw as <- <-. done.
    - change (seq a (S n)) with (a :: seq (S a) n) in Hw.
      rewrite fmap_cons in Hw. cbn [write_rows] in Hw.
      destruct (row_at self t0 (Z.of_nat a)) as [r0|x] eqn:Er; [|by injection Hw as <- <-].
      destruct (write_rows self t0 (Z.of_nat <$> seq (S a) n)) as [rs' e''] eqn:Ew.
      injection Hw as <- <-.
      destruct j as [|j].
      + injection Hr as <-. unfold row_at in Er. bind_ok Er. rename E into Htm.
        do 7 bind_ok Er. injection Er as <-.
        apply getitem_Ok in Htm as [_ Htm]. unfold position in Htm.
        assert ((Z.of_nat a <? 0) = false) as Hlt by (apply Z.ltb_ge; lia).
        rewrite Hlt, Nat2Z.id in Htm.
        rewrite Nat.add_0_r. eauto.
      + destruct (IH (S a) rs' e'' Ew j r Hr) as (tm & Htm & Hz).
        exists tm. by replace (a + S j)%nat with (S a + j)%nat by lia. }
  intros Hw.
  destruct (write_rows self t0 _) as [rs e'] eqn:Ew. injection Hw as <- <-.
  split.
  - intros r Hr. destruct rs as [|r' rs]; [done|]. injection Hr as ->.
    destruct (Hgen _ _ _ _ Ew 0%nat r eq_refl) as (tm & Htm & Hz).
    rewrite Et in Htm. injection Htm as <-. exists (t0 - t0)%Q. split; [done | lra].
  - intros Hnd r z [j Hj]%list_elem_of_lookup_1 Hz.
    destruct (Hgen _ _ _ _ Ew j r Hj) as (tm & Htm & Hz').
    assert (z = (tm - t0)%Q) as -> by congruence.
    assert (t0 <= tm)%Q; [|lra].
    eapply (Hnd 0%nat j); [lia | by rewrite Et | done].
Qed.

Lemma save_data_times_relative_witness :
  let app := run PIDTuningApp.init Sessions.four_samples in
  ∃ rows, save_data app "run.csv" = Written rows None ∧
    ∀ r, head rows = Some r → ∃ z, r !! 0%nat = Some z ∧ (z == 0)%Q.
Proof.
  intros app.
  assert (H : ∃ rows, save_data app "run.csv" = Written rows None)
    by (vm_compute; eexists; reflexivity).
  destruct H as [rows H]. exists rows.
  split; [exact H|]. apply (save_data_times_relative app "run.csv" _ _ H).
Defined.

(** After the plot was cleared there is nothing to export. *)
Lemma save_data_after_clear self filename :
  save_data (clear_plot self) filename = NoData.
Proof. done. Qed.

End SaveTheorems.


(** ** Framing of the serial stream *)

Section ReaderFacts.
Import Reader.

Context {M : Type} (loads : str → option M).

Implicit Types (s b : str) (q : list M) (evs : list event).

Lemma split_once_None s : split_once s = None → split_lines s = ([], s).
Proof.
  induction s as [|c r IH]; [done|]. simpl.
  destruct (c =? newline)%N; [done|].
  destruct (split_once r) as [[line rest]|]; [done|]. intros _. by rewrite IH.
Qed.

Lemma split_once_Some s line rest :
  split_once s = Some (line, rest) →
  split_lines s = (line :: (split_lines rest).1, (split_lines rest).2) ∧
  (length rest < length s)%nat.
Proof.
  revert line. induction s as [|c r IH]; intros line; [done|]. simpl.
  destruct (c =? newline)%N.
  - intros [= <- <-]. destruct (split_lines r). split; [done | lia].
  - destruct (split_once r) as [[line' rest']|]; [|done]. intros [= <- <-].
    destruct (IH line' eq_refl) as [-> Hl]. split; [done | lia].
Qed.

Lemma split_lines_app s1 s2 :
  split_lines (s1 ++ s2) =
  ((split_lines s1).1 ++ (split_lines ((split_lines s1).2 ++ s2)).1,
   (split_lines ((split_lines s1).2 ++ s2)).2).
Proof.
  induction s1 as [|c r IH]; simpl; [by destruct (split_lines s2)|].
  rewrite IH. destruct (split_lines r) as [ls rest]. simpl.
  destruct (c =? newline)%N eqn:Ec; [done|].
  destruct ls as [|l ls]; simpl; [|done].
  rewrite Ec. by destruct (split_lines (rest ++ s2)) as [[|? ?] ?].
Qed.

(** What follows the last newline holds no newline. *)
Lemma split_lines_rest s : split_lines (split_lines s).2 = ([], (split_lines s).2).
Proof.
  induction s as [|c r IH]; [done|]. simpl.
  destruct (split_lines r) as [ls rest]. simpl in IH.
  destruct (c =? newline)%N eqn:Ec; [done|].
  destruct ls as [|l ls]; simpl; [|done]. by rewrite IH, Ec.
Qed.

Lemma drain_spec fuel b q :
  (length b ≤ fuel)%nat →
  drain loads fuel b q =
  Some ((split_lines b).2, q ++ omap (parse loads) (split_lines b).1).
Proof.
  revert b q. induction fuel as [|fuel IH]; intros b q Hf.
  - destruct b; [|simpl in Hf; lia]. simpl. by rewrite app_nil_r.
  - cbn [drain]. destruct (split_once b) as [[line rest]|] eqn:E.
    + destruct (split_once_Some _ _ _ E) as [-> Hl]. rewrite IH by lia.
      cbn [fst snd omap list_omap]. unfold parse at 2.
      destruct (strip line) as [|c l]; [done|].
      destruct (loads (c :: l)); [by rewrite <- app_assoc | done].
    + rewrite (split_once_None _ E). simpl. by rewrite app_nil_r.
Qed.

Lemma feed_spec (self : t) data :
  feed loads self data =
  mk (split_lines (buffer self ++ data)).2
     (data_queue self ++ omap (parse loads) (split_lines (buffer self ++ data)).1) true.
Proof. unfold feed. by rewrite drain_spec. Qed.

Lemma run_dead (self : t) evs : alive self = false → run loads self evs = self.
Proof.
  intros H. induction evs as [|ev evs IH]; [done|].
  change (run loads self (ev :: evs)) with (run loads (iteration loads self ev) evs).
  unfold iteration. by rewrite H.
Qed.

(** The state of a running thread whose buffer holds no newline, after
    any sequence of rounds. *)
Lemma run_spec (self : t) evs :
  alive self = true → split_once (buffer self) = None →
  run loads self evs =
  mk (split_lines (buffer self ++ received evs)).2
     (data_queue self ++ omap (parse loads) (split_lines (buffer self ++ received evs)).1)
     (negb (stopped evs)).
Proof.
  revert self. induction evs as [|ev evs IH]; intros [b q a] Ha Hb; simpl in Ha, Hb; subst a.
  - simpl. rewrite app_nil_r, (split_once_None _ Hb). simpl. by rewrite app_nil_r.
  - destruct ev.
    + apply (IH (mk b q true)); done.
    + change (run loads (mk b q true) (Text data :: evs))
        with (run loads (feed loads (mk b q true) data) evs).
      rewrite feed_spec. cbn [buffer data_queue].
      rewrite IH; cbn [buffer data_queue alive]; [|done|].
      * cbn [received stopped existsb orb].
        rewrite (app_assoc b data), (split_lines_app (b ++ data) (received evs)).
        cbn [fst snd]. by rewrite omap_app, app_assoc.
      * pose proof (split_lines_rest (b ++ data)) as H.
        destruct (split_once (split_lines (b ++ data)).2) as [[line rest]|] eqn:E; [|done].
        apply split_once_Some in E as [E _]. congruence.
    + change (run loads (mk b q true) (Closed :: evs)) with (run loads (mk b q false) evs).
      rewrite run_dead by done. simpl.
      rewrite app_nil_r, (split_once_None _ Hb). simpl. by rewrite app_nil_r.
    + change (run loads (mk b q true) (Fails :: evs)) with (run loads (mk b q false) evs).
      rewrite run_dead by done. simpl.
      rewrite app_nil_r, (split_once_None _ Hb). simpl. by rewrite app_nil_r.
Qed.


(** X18.  How the stream is cut into reads does not matter: the same text gives
    the same queue and the same buffer. *)
Theorem reader_chunking evs1 evs2 :
  received evs1 = received evs2 →
  data_queue (run loads init evs1) = data_queue (run loads init evs2) ∧
  buffer (run loads init evs1) = buffer (run loads init evs2).
Proof. intros H. by rewrite !run_spec, H. Qed.

Lemma lstrip_snoc s w :
  isspace w = true →
  lstrip (s ++ [w]) = if forallb isspace s then [] else lstrip s ++ [w].
Proof.
  intros Hw. induction s as [|c r IH]; simpl; [by rewrite Hw|].
  destruct (isspace c); simpl; done.
Qed.

Lemma lstrip_all s : forallb isspace s = true → lstrip s = [].
Proof.
  induction s as [|c r IH]; [done|]. simpl.
  destruct (isspace c); simpl; [done | discriminate].
Qed.

(** A trailing whitespace character does not change the stripped line. *)
Lemma strip_snoc s w : isspace w = true → strip (s ++ [w]) = strip s.
Proof.
  intros Hw. unfold strip, rstrip. rewrite lstrip_snoc by done.
  destruct (forallb isspace s) eqn:E.
  - by rewrite (lstrip_all s E).
  - rewrite rev_unit. simpl. by rewrite Hw.
Qed.

Lemma split_lines_snoc_rest s c :
  split_lines s = ([], s) →
  split_lines (s ++ [c]) = if (c =? newline)%N then ([s], []) else ([], s ++ [c]).
Proof.
  induction s as [|x r IH]; simpl; [by destruct (c =? newline)%N|].
  destruct (split_lines r) as [ls rest].
  destruct (x =? newline)%N eqn:Ex; [done|].
  destruct ls as [|l ls]; [|done]. intros [= ->].
  rewrite IH by done. by destruct (c =? newline)%N; rewrite ?Ex.
Qed.

Lemma split_lines_snoc s c :
  split_lines (s ++ [c]) =
  if (c =? newline)%N then ((split_lines s).1 ++ [(split_lines s).2], [])
  else ((split_lines s).1, (split_lines s).2 ++ [c]).
Proof.
  rewrite split_lines_app, (split_lines_snoc_rest _ c (split_lines_rest s)).
  destruct (c =? newline)%N; simpl; [done | by rewrite app_nil_r].
Qed.

Lemma received_snoc evs data :
  received (evs ++ [Text data]) = if stopped evs then received evs else received evs ++ data.
Proof.
  induction evs as [|ev evs IH]; simpl; [by rewrite app_nil_r|].
  destruct ev; simpl; [done | | done | done].
  rewrite IH. destruct (stopped evs); [done | by rewrite app_assoc].
Qed.

(** X19.  A line that ends in carriage return and newline is queued exactly as
    the same line ending in a newline alone. *)
Theorem reader_crlf evs line :
  run loads init (evs ++ [Text (line ++ [13; 10]%N)]) =
  run loads init (evs ++ [Text (line ++ [10%N])]).
Proof.
  rewrite !run_spec by done. cbn [buffer data_queue init app].
  rewrite !received_snoc.
  assert (stopped (evs ++ [Text (line ++ [13; 10]%N)]) =
          stopped (evs ++ [Text (line ++ [10%N])])) as ->
    by (unfold stopped; rewrite !existsb_app; done).
  destruct (stopped evs); [done|].
  change (line ++ [13; 10]%N) with (line ++ [13%N] ++ [10%N]).
  rewrite !app_assoc. rewrite !(split_lines_snoc _ 10%N).
  change (10 =? newline)%N with true. cbn iota.
  rewrite (split_lines_snoc _ 13%N). change (13 =? newline)%N with false. cbn iota.
  cbn [fst snd]. rewrite !omap_app. cbn [omap list_omap].
  unfold parse at 2 4. by rewrite strip_snoc.
Qed.

End ReaderFacts.

Lemma reader_chunking_witness :
  let whole := [Reader.Text (Reader.sample_line ++ [10%N])] in
  let cut := [Reader.Text (take 5 Reader.sample_line); Reader.Idle;
              Reader.Text (drop 5 Reader.sample_line ++ [10%N])] in
  Reader.received whole = Reader.received cut ∧
  Reader.data_queue (Reader.run Some Reader.init whole) =
  Reader.data_queue (Reader.run Some Reader.init cut).
Proof.
  intros whole cut.
  assert (H : Reader.received whole = Reader.received cut) by (vm_compute; reflexivity).
  split; [exact H|]. apply (reader_chunking Some whole cut H).
Defined.

